(** * OlapTableSink: a shallow embedding of be/src/exec/tablet_sink.h and
      be/src/runtime/tablets_channel.h

    The development follows the classes of the two headers: [AddBatchCounter],
    [NodeChannel], [IndexChannel], [RowBuffer], [OlapTableSink] and
    [TabletsChannelKey].  What the headers define inline is translated from
    the C++ text.  Member functions that the headers only declare are modelled
    from the design document; each such definition says so in its comment. *)

From Stdlib Require Import ZArith Lia Bool List.
From stdpp Require Import base option list gmap fin_maps.

Local Open Scope Z_scope.

(** ** Machine integers *)

(** [int64_t] and [int] values are integers of [Z] kept in the range of the
    type; an arithmetic result is brought back into the range by
    two's-complement wrap-around. *)
Definition wrap (w : Z) (z : Z) : Z := (z + 2 ^ (w - 1)) mod 2 ^ w - 2 ^ (w - 1).

Definition in_range (w : Z) (z : Z) : Prop := - 2 ^ (w - 1) <= z < 2 ^ (w - 1).

Definition int64_add (a b : Z) : Z := wrap 64 (a + b).
Definition int32_add (a b : Z) : Z := wrap 32 (a + b).

Definition is_int64 (z : Z) : Prop := in_range 64 z.
Definition is_int32 (z : Z) : Prop := in_range 32 z.

(** ** Status (common/status.h), reduced to the error kinds of the sink *)

Inductive ErrorKind : Type :=
  | InvalidConfig | UnknownNode | OpenRpcFailed | RemoteRejected
  | MemLimit | BufferOff | SerializeFailed | QuorumLost | Cancelled | Timeout.

Inductive Status : Type :=
  | OK : Status
  | Error : ErrorKind -> Status.

(** A tuple is the sequence of its column values; a column value is either
    NULL, a string of bytes or a number (integers and scaled decimals). *)
Inductive Datum : Type :=
  | DNull : Datum
  | DString : list Z -> Datum
  | DNumber : Z -> Datum.

Definition Tuple : Type := list Datum.

(** ** struct AddBatchCounter (tablet_sink.h, lines 57-75) *)

Module AddBatchCounter.

Record t : Type := mk {
  add_batch_execution_time_us : Z;
  add_batch_wait_lock_time_us : Z;
  add_batch_num : Z
}.

(** The default member initialisers: all three fields are 0. *)
Definition default : t := mk 0 0 0.

(** [operator+=]: the returned value is the updated [*this]. *)
Definition add_assign (this rhs : t) : t :=
  mk (int64_add (add_batch_execution_time_us this) (add_batch_execution_time_us rhs))
     (int64_add (add_batch_wait_lock_time_us this) (add_batch_wait_lock_time_us rhs))
     (int64_add (add_batch_num this) (add_batch_num rhs)).

(** [operator+]: copy [lhs] into [sum], then [sum += rhs]. *)
Definition add (lhs rhs : t) : t :=
  let sum := lhs in
  let sum := add_assign sum rhs in
  sum.

(** The three fields are [int64_t]. *)
Definition wf (c : t) : Prop :=
  is_int64 (add_batch_execution_time_us c) /\
  is_int64 (add_batch_wait_lock_time_us c) /\
  is_int64 (add_batch_num c).

End AddBatchCounter.

(** ** struct TabletsChannelKey (tablets_channel.h, lines 35-49) *)

(** [UniqueId] is declared in util/uid_util.h; the key uses its [operator==]
    and its [hash()].  The generic key takes the type and these two as
    parameters, and [HashUtil::hash] of an [int64_t] under a seed as a
    third. *)
Module TabletsChannelKey.

Section Key.
Context {UniqueId : Type}.
Variable uid_eq : UniqueId -> UniqueId -> bool.
Variable uid_hash : UniqueId -> Z.
Variable hash_int64 : Z -> Z -> Z.

Record t : Type := mk {
  id : UniqueId;
  index_id : Z
}.

(** [operator==]: [index_id == rhs.index_id && id == rhs.id]. *)
Definition eq (this rhs : t) : bool :=
  (index_id this =? index_id rhs) && uid_eq (id this) (id rhs).

(** [TabletsChannelKeyHasher::operator()] (lines 51-56): the hash of the id
    seeds the hash of the index id. *)
Definition hasher (key : t) : Z :=
  let seed := uid_hash (id key) in
  hash_int64 (index_id key) seed.
End Key.

Arguments t : clear implicits.
Arguments mk {UniqueId} _ _.

End TabletsChannelKey.

(** Modelled from the spec: [UniqueId] (util/uid_util.h is not part of the
    two headers) is the 128-bit load id, held as two 64-bit halves and
    compared half by half. *)
Module UniqueId.

Record t : Type := mk { hi : Z; lo : Z }.

Definition eq (a b : t) : bool := (hi a =? hi b) && (lo a =? lo b).

End UniqueId.

(** ** class NodeChannel (tablet_sink.h, lines 77-147) *)

Module NodeChannel.

(** A [PTabletWriterAddBatchRequest] as it leaves the channel. *)
Record AddBatchRequest : Type := mkReq {
  req_index_id : Z;
  req_sender_id : Z;
  req_packet_seq : Z;
  req_rows : list Tuple;
  req_tablet_ids : list Z;
  req_eos : bool
}.

(** The remote tablet writer behind [_stub], seen from this channel: the
    status with which it answers the open request, and the status with
    which it answers the add-batch packet of a given sequence number. *)
Record Backend : Type := mkBackend {
  answer_open : Status;
  answer_add_batch : Z -> Status
}.

(** A backend that accepts every request. *)
Definition always_ok : Backend := mkBackend OK (fun _ => OK).

(** A backend that accepts the packets before [seq] and answers every
    later one with [RemoteRejected]. *)
Definition drops_at (seq : Z) : Backend :=
  mkBackend OK (fun n => if n <? seq then OK else Error RemoteRejected).

(** The members of the class.  [_parent] is a back-reference that the
    channel only reads: what it reads ([_sender_id], the batch capacity of
    the runtime state) is held by value.  [_batch] is the row batch with
    the tablet id of every row ([_add_batch_request.tablet_ids]).  [wire]
    is the history of the requests dispatched through [_stub], oldest
    first. *)
Record t : Type := mk {
  _parent_sender_id : Z;
  _index_id : Z;
  _node_id : Z;
  _schema_hash : Z;
  _already_failed : bool;
  _has_in_flight_packet : bool;
  _rpc_timeout_ms : Z;
  _next_packet_seq : Z;
  _batch_capacity : nat;
  _batch : list (Tuple * Z);
  _stub : Backend;
  _all_tablets : list (Z * Z);
  wire : list AddBatchRequest
}.

(** The default member initialisers of the class (lines 121-146); a null
    [_stub] answers nothing, which reads as an RPC failure. *)
Definition defaults : t :=
  {| _parent_sender_id := -1;
     _index_id := -1;
     _node_id := -1;
     _schema_hash := 0;
     _already_failed := false;
     _has_in_flight_packet := false;
     _rpc_timeout_ms := 60000;
     _next_packet_seq := 0;
     _batch_capacity := 0;
     _batch := [];
     _stub := mkBackend (Error OpenRpcFailed) (fun _ => Error OpenRpcFailed);
     _all_tablets := [];
     wire := [] |}.

(** Modelled from the spec: the constructor [NodeChannel(parent, index_id,
    node_id, schema_hash)] (declared at line 79, body in the .cpp file).  It
    stores its four arguments, and every other member keeps its default
    member initialiser; [_rpc_timeout_ms] is set later, in [init], as the
    header says. *)
Definition new (parent_sender_id index_id node_id schema_hash : Z) : t :=
  {| _parent_sender_id := parent_sender_id;
     _index_id := index_id;
     _node_id := node_id;
     _schema_hash := schema_hash;
     _already_failed := _already_failed defaults;
     _has_in_flight_packet := _has_in_flight_packet defaults;
     _rpc_timeout_ms := _rpc_timeout_ms defaults;
     _next_packet_seq := _next_packet_seq defaults;
     _batch_capacity := _batch_capacity defaults;
     _batch := _batch defaults;
     _stub := _stub defaults;
     _all_tablets := _all_tablets defaults;
     wire := wire defaults |}.

(** [add_tablet]: [_all_tablets.emplace_back(tablet)]; a
    [TTabletWithPartition] is the pair (partition id, tablet id). *)
Definition add_tablet (tablet : Z * Z) (ch : t) : t :=
  {| _parent_sender_id := _parent_sender_id ch; _index_id := _index_id ch;
     _node_id := _node_id ch; _schema_hash := _schema_hash ch;
     _already_failed := _already_failed ch;
     _has_in_flight_packet := _has_in_flight_packet ch;
     _rpc_timeout_ms := _rpc_timeout_ms ch;
     _next_packet_seq := _next_packet_seq ch;
     _batch_capacity := _batch_capacity ch; _batch := _batch ch;
     _stub := _stub ch;
     _all_tablets := _all_tablets ch ++ [tablet];
     wire := wire ch |}.

(** [set_failed]: [_already_failed = true]. *)
Definition set_failed (ch : t) : t :=
  {| _parent_sender_id := _parent_sender_id ch; _index_id := _index_id ch;
     _node_id := _node_id ch; _schema_hash := _schema_hash ch;
     _already_failed := true;
     _has_in_flight_packet := _has_in_flight_packet ch;
     _rpc_timeout_ms := _rpc_timeout_ms ch;
     _next_packet_seq := _next_packet_seq ch;
     _batch_capacity := _batch_capacity ch; _batch := _batch ch;
     _stub := _stub ch; _all_tablets := _all_tablets ch;
     wire := wire ch |}.

Definition already_failed (ch : t) : bool := _already_failed ch.
Definition index_id (ch : t) : Z := _index_id ch.
Definition node_id (ch : t) : Z := _node_id ch.

(** Modelled from the spec: [NodeChannel::init] (declared in the header,
    body in the .cpp file).  It resolves the endpoint of the node in the
    nodes info and fails with [UnknownNode] when the node is missing,
    builds the stub, allocates the batch with the row capacity of the
    runtime state and takes the RPC timeout from the configuration when
    the configuration carries one. *)
Definition init (nodes_info : gmap Z Backend) (rpc_timeout_ms : option Z)
    (batch_size : nat) (ch : t) : Status * t :=
  match nodes_info !! _node_id ch with
  | None => (Error UnknownNode, ch)
  | Some backend =>
      (OK,
       {| _parent_sender_id := _parent_sender_id ch; _index_id := _index_id ch;
          _node_id := _node_id ch; _schema_hash := _schema_hash ch;
          _already_failed := _already_failed ch;
          _has_in_flight_packet := _has_in_flight_packet ch;
          _rpc_timeout_ms := default (_rpc_timeout_ms ch) rpc_timeout_ms;
          _next_packet_seq := _next_packet_seq ch;
          _batch_capacity := batch_size; _batch := [];
          _stub := backend; _all_tablets := _all_tablets ch;
          wire := wire ch |})
  end.

Definition with_batch (batch : list (Tuple * Z)) (ch : t) : t :=
  {| _parent_sender_id := _parent_sender_id ch; _index_id := _index_id ch;
     _node_id := _node_id ch; _schema_hash := _schema_hash ch;
     _already_failed := _already_failed ch;
     _has_in_flight_packet := _has_in_flight_packet ch;
     _rpc_timeout_ms := _rpc_timeout_ms ch;
     _next_packet_seq := _next_packet_seq ch;
     _batch_capacity := _batch_capacity ch; _batch := batch;
     _stub := _stub ch; _all_tablets := _all_tablets ch;
     wire := wire ch |}.

Definition with_in_flight (b : bool) (ch : t) : t :=
  {| _parent_sender_id := _parent_sender_id ch; _index_id := _index_id ch;
     _node_id := _node_id ch; _schema_hash := _schema_hash ch;
     _already_failed := _already_failed ch;
     _has_in_flight_packet := b;
     _rpc_timeout_ms := _rpc_timeout_ms ch;
     _next_packet_seq := _next_packet_seq ch;
     _batch_capacity := _batch_capacity ch; _batch := _batch ch;
     _stub := _stub ch; _all_tablets := _all_tablets ch;
     wire := wire ch |}.

(** Modelled from the spec: the last step of [_send_cur_batch].  The
    request goes on the wire, the sequence number is incremented, a packet
    is in flight and the batch starts afresh. *)
Definition dispatch (req : AddBatchRequest) (ch : t) : t :=
  {| _parent_sender_id := _parent_sender_id ch; _index_id := _index_id ch;
     _node_id := _node_id ch; _schema_hash := _schema_hash ch;
     _already_failed := _already_failed ch;
     _has_in_flight_packet := true;
     _rpc_timeout_ms := _rpc_timeout_ms ch;
     _next_packet_seq := int64_add (_next_packet_seq ch) 1;
     _batch_capacity := _batch_capacity ch; _batch := [];
     _stub := _stub ch; _all_tablets := _all_tablets ch;
     wire := wire ch ++ [req] |}.

(** Modelled from the spec: [NodeChannel::open] issues the open RPC and
    does not block, so it leaves the channel as it is; [open_wait] blocks
    until the RPC completes and returns the outcome of the RPC. *)
Definition open (ch : t) : t := ch.

Definition open_wait (ch : t) : Status * t := (answer_open (_stub ch), ch).

(** Modelled from the spec: [NodeChannel::_wait_in_flight_packet] (body in
    the .cpp file).  Without a packet in flight there is nothing to wait
    for; otherwise the call joins the outstanding RPC, which is the packet
    sent last, and returns the status the remote side gave it. *)
Definition _wait_in_flight_packet (ch : t) : Status * t :=
  if _has_in_flight_packet ch
  then (answer_add_batch (_stub ch) (_next_packet_seq ch - 1), with_in_flight false ch)
  else (OK, ch).

(** Modelled from the spec: [NodeChannel::_send_cur_batch] (body in the
    .cpp file), the four steps of the send protocol: wait for the packet
    in flight and fail with its status when that is not OK; serialise the
    batch with its parallel tablet-id vector; build the request with the
    index id, the sender id, the packet sequence [_next_packet_seq] and
    [eos]; dispatch it, increment [_next_packet_seq] and set the in-flight
    flag. *)
Definition _send_cur_batch (eos : bool) (ch : t) : Status * t :=
  let '(st, ch1) := _wait_in_flight_packet ch in
  match st with
  | Error e => (Error e, ch1)
  | OK =>
      let req :=
        {| req_index_id := _index_id ch1;
           req_sender_id := _parent_sender_id ch1;
           req_packet_seq := _next_packet_seq ch1;
           req_rows := map fst (_batch ch1);
           req_tablet_ids := map snd (_batch ch1);
           req_eos := eos |} in
      (OK, dispatch req ch1)
  end.

(** Modelled from the spec: [NodeChannel::add_row] (body in the .cpp
    file).  The tuple is appended to the batch with its tablet id; when
    the batch is full it is sent with [eos = false]. *)
Definition add_row (tuple : Tuple) (tablet_id : Z) (ch : t) : Status * t :=
  let ch1 := with_batch (_batch ch ++ [(tuple, tablet_id)]) ch in
  if (_batch_capacity ch1 <=? length (_batch ch1))%nat
  then _send_cur_batch false ch1
  else (OK, ch1).

(** Modelled from the spec: [NodeChannel::close] force-sends the remainder
    with [eos = true]. *)
Definition close (ch : t) : Status * t := _send_cur_batch true ch.

(** Modelled from the spec: [NodeChannel::close_wait] blocks until the
    last packet in flight completes and surfaces its status. *)
Definition close_wait (ch : t) : Status * t := _wait_in_flight_packet ch.

(** Modelled from the spec: [NodeChannel::cancel] marks the channel
    failed; aborting the RPC in flight is best effort and leaves no trace
    in the channel. *)
Definition cancel (ch : t) : t := set_failed ch.

(** One session of a channel: rows are added one after the other until the
    first failure, then the channel is closed. *)
Fixpoint add_rows (rows : list (Tuple * Z)) (ch : t) : Status * t :=
  match rows with
  | [] => (OK, ch)
  | (tuple, tablet_id) :: rest =>
      let '(st, ch1) := add_row tuple tablet_id ch in
      match st with
      | OK => add_rows rest ch1
      | Error e => (Error e, ch1)
      end
  end.

Definition session (rows : list (Tuple * Z)) (ch : t) : Status * t :=
  let '(st, ch1) := add_rows rows ch in
  match st with
  | OK => close ch1
  | Error e => (Error e, ch1)
  end.

(** The sequence numbers that [n] packets carry when the first one has
    number 0. *)
Definition packet_seqs (n : nat) : list Z := map Z.of_nat (seq 0 n).

(** What holds of a channel at any time: the next sequence number is the
    number of packets sent so far (as an [int64_t]), the packets on the wire
    are numbered in the order they were sent, and each carries the ids of
    this channel. *)
Definition seq_ok (ch : t) : Prop :=
  _next_packet_seq ch = wrap 64 (Z.of_nat (length (wire ch))) /\
  map req_packet_seq (wire ch) = map (wrap 64) (packet_seqs (length (wire ch))) /\
  Forall (fun r => req_index_id r = _index_id ch /\
                   req_sender_id r = _parent_sender_id ch) (wire ch).

Definition no_eos (ch : t) : Prop :=
  Forall (fun r => req_eos r = false) (wire ch).

(** A backend that accepts the open request and every add-batch packet. *)
Definition reliable (b : Backend) : Prop :=
  answer_open b = OK /\ forall seq : Z, answer_add_batch b seq = OK.

End NodeChannel.

(** ** class IndexChannel (tablet_sink.h, lines 149-200) *)

Module IndexChannel.

(** The members of the class.  [_parent] is read for [_num_repicas] and
    [_sender_id], held by value.  A [NodeChannel*] is the node id under
    which the channel object lives in [_node_channels]: the replica lists of
    [_channels_by_tablet] hold such ids, so that a channel marked failed is
    seen failed from every tablet it serves. *)
Record t : Type := mk {
  _parent_num_repicas : Z;
  _parent_sender_id : Z;
  _index_id : Z;
  _schema_hash : Z;
  _num_failed_channels : Z;
  _node_channels : gmap Z NodeChannel.t;
  _channels_by_tablet : gmap Z (list Z)
}.

(** The constructor [IndexChannel(parent, index_id, schema_hash)] (inline,
    lines 151-152) with the default member initialisers. *)
Definition new (num_repicas sender_id index_id schema_hash : Z) : t :=
  {| _parent_num_repicas := num_repicas;
     _parent_sender_id := sender_id;
     _index_id := index_id;
     _schema_hash := schema_hash;
     _num_failed_channels := 0;
     _node_channels := ∅;
     _channels_by_tablet := ∅ |}.

Definition with_node_channels (m : gmap Z NodeChannel.t) (idx : t) : t :=
  {| _parent_num_repicas := _parent_num_repicas idx;
     _parent_sender_id := _parent_sender_id idx;
     _index_id := _index_id idx;
     _schema_hash := _schema_hash idx;
     _num_failed_channels := _num_failed_channels idx;
     _node_channels := m;
     _channels_by_tablet := _channels_by_tablet idx |}.

Definition with_channels_by_tablet (m : gmap Z (list Z)) (idx : t) : t :=
  {| _parent_num_repicas := _parent_num_repicas idx;
     _parent_sender_id := _parent_sender_id idx;
     _index_id := _index_id idx;
     _schema_hash := _schema_hash idx;
     _num_failed_channels := _num_failed_channels idx;
     _node_channels := _node_channels idx;
     _channels_by_tablet := m |}.

Definition with_num_failed_channels (n : Z) (idx : t) : t :=
  {| _parent_num_repicas := _parent_num_repicas idx;
     _parent_sender_id := _parent_sender_id idx;
     _index_id := _index_id idx;
     _schema_hash := _schema_hash idx;
     _num_failed_channels := n;
     _node_channels := _node_channels idx;
     _channels_by_tablet := _channels_by_tablet idx |}.

(** [get_node_channels(tablet_id)]: the replica channels of a tablet. *)
Definition get_node_channels (tablet_id : Z) (idx : t) : list Z :=
  default [] (_channels_by_tablet idx !! tablet_id).

(** A replica channel is live when it exists and is not marked failed. *)
Definition live (idx : t) (node : Z) : bool :=
  match _node_channels idx !! node with
  | Some ch => negb (NodeChannel.already_failed ch)
  | None => false
  end.

(** The number of live channels among the replicas of a tablet. *)
Definition live_replicas (idx : t) (nodes : list Z) : Z :=
  Z.of_nat (length (List.filter (live idx) nodes)).

(** The number of channels marked failed. *)
Definition failed_count (idx : t) : nat :=
  size (filter (fun kc : Z * NodeChannel.t => NodeChannel.already_failed kc.2 = true)
               (_node_channels idx)).

(** No channel of the index is marked failed, and the counter is 0. *)
Definition no_failure (idx : t) : Prop :=
  _num_failed_channels idx = 0 /\
  map_Forall (fun _ ch => NodeChannel.already_failed ch = false) (_node_channels idx).

(** The channel of [node] exists and its backend accepts the open request. *)
Definition accepts_open (idx : t) (node : Z) : bool :=
  match _node_channels idx !! node with
  | Some ch =>
      match NodeChannel.answer_open (NodeChannel._stub ch) with
      | OK => true
      | Error _ => false
      end
  | None => false
  end.

(** Every node that is [good] has a channel, which is not marked failed and
    whose backend is reliable. *)
Definition all_reliable (good : Z -> Prop) (idx : t) : Prop :=
  forall node, good node ->
    exists ch, _node_channels idx !! node = Some ch /\
               NodeChannel.reliable (NodeChannel._stub ch) /\
               NodeChannel.already_failed ch = false.

(** A status that tells whether the quorum holds: OK when it does,
    [QuorumLost] when it does not. *)
Definition verdict (st : Status) (quorum_holds : bool) : Prop :=
  (st = OK /\ quorum_holds = true) \/ (st = Error QuorumLost /\ quorum_holds = false).

(** The two readings of the quorum in the design document: the strict
    majority of [R] replicas, and the formula written next to it. *)
Definition strict_majority (R : Z) : Z := R / 2 + 1.
Definition ceil_half_plus_one (R : Z) : Z := (R + 1) / 2 + 1.

(** Modelled from the spec: [IndexChannel::init] (body in the .cpp file)
    groups the tablets by hosting node, creates one NodeChannel per node
    and fills [_channels_by_tablet]; every channel is then initialised.
    [location] gives the replica nodes of a tablet. *)
Definition attach (tablet : Z * Z) (idx : t) (node : Z) : t :=
  let ch := default (NodeChannel.new (_parent_sender_id idx) (_index_id idx) node
                                     (_schema_hash idx))
                    (_node_channels idx !! node) in
  with_channels_by_tablet
    (<[tablet.2 := get_node_channels tablet.2 idx ++ [node]]> (_channels_by_tablet idx))
    (with_node_channels
       (<[node := NodeChannel.add_tablet tablet ch]> (_node_channels idx)) idx).

Definition attach_tablet (location : gmap Z (list Z)) (idx : t) (tablet : Z * Z) : t :=
  foldl (attach tablet) idx (default [] (location !! tablet.2)).

Fixpoint init_channels (nodes_info : gmap Z NodeChannel.Backend)
    (rpc_timeout_ms : option Z) (batch_size : nat)
    (chs : list (Z * NodeChannel.t)) (idx : t) : Status * t :=
  match chs with
  | [] => (OK, idx)
  | (node, ch) :: rest =>
      let '(st, ch1) := NodeChannel.init nodes_info rpc_timeout_ms batch_size ch in
      match st with
      | OK => init_channels nodes_info rpc_timeout_ms batch_size rest
                (with_node_channels (<[node := ch1]> (_node_channels idx)) idx)
      | Error e => (Error e, idx)
      end
  end.

Definition init (nodes_info : gmap Z NodeChannel.Backend)
    (location : gmap Z (list Z)) (rpc_timeout_ms : option Z) (batch_size : nat)
    (tablets : list (Z * Z)) (idx : t) : Status * t :=
  let idx1 := foldl (attach_tablet location) idx tablets in
  init_channels nodes_info rpc_timeout_ms batch_size
    (map_to_list (_node_channels idx1)) idx1.

(** The state in which a channel is marked failed, and the one in which
    each channel of a list is. *)
Definition mark_failed (idx : t) (node : Z) : t :=
  with_node_channels (alter NodeChannel.set_failed node (_node_channels idx)) idx.

Definition mark_all_failed (nodes : list Z) (idx : t) : t :=
  foldl mark_failed idx nodes.

Section Quorum.
(** The least number of live replicas that a tablet needs, as a function
    of the replication factor. *)
Variable quorum : Z -> Z.

Definition has_quorum (idx : t) (nodes : list Z) : bool :=
  quorum (_parent_num_repicas idx) <=? live_replicas idx nodes.

(** Every tablet of the index has its quorum of live replicas. *)
Definition quorum_ok (idx : t) : bool :=
  forallb (fun kv : Z * list Z => has_quorum idx kv.2)
          (map_to_list (_channels_by_tablet idx)).

(** Some tablet served by [node] is below its quorum. *)
Definition tablet_below_quorum (node : Z) (idx : t) : bool :=
  existsb (fun kv : Z * list Z =>
             existsb (Z.eqb node) kv.2 && negb (has_quorum idx kv.2))
          (map_to_list (_channels_by_tablet idx)).

(** Modelled from the spec: [IndexChannel::_handle_failed_node] (declared
    at line 181, body in the .cpp file).  If the channel is already
    marked failed the call returns.  Otherwise the channel is marked
    failed and [_num_failed_channels] is incremented; for each tablet
    whose replica list includes the channel the live replicas are
    counted again, and the result is [true], the load cannot succeed,
    if one of them is below the quorum. *)
Definition _handle_failed_node (node : Z) (idx : t) : bool * t :=
  match _node_channels idx !! node with
  | None => (false, idx)
  | Some ch =>
      if NodeChannel.already_failed ch then (false, idx)
      else
        let idx1 :=
          with_num_failed_channels (int32_add (_num_failed_channels idx) 1)
            (with_node_channels
               (<[node := NodeChannel.set_failed ch]> (_node_channels idx)) idx) in
        (tablet_below_quorum node idx1, idx1)
  end.

(** [handle_failed_node] (lines 165-168): take [_ch_lock], then
    [_handle_failed_node]; the lock serialises the callers and has no
    state of its own. *)
Definition handle_failed_node (node : Z) (idx : t) : bool * t :=
  _handle_failed_node node idx.

(** The verdict of the index on a load during which the listed channels
    are reported failed, in this order: the load is lost at the first
    report that [handle_failed_node] answers with [true]. *)
Fixpoint fail_nodes (nodes : list Z) (idx : t) : bool * t :=
  match nodes with
  | [] => (false, idx)
  | node :: rest =>
      let '(fatal, idx1) := handle_failed_node node idx in
      if fatal then (true, idx1) else fail_nodes rest idx1
  end.

(** Modelled from the spec: what [open], [add_row] and [close] share.  [f]
    runs on each listed channel that is live.  A channel on which [f] fails
    is reported with [handle_failed_node]; the pass stops with [QuorumLost]
    when the answer is [true]. *)
Fixpoint for_each_live (f : NodeChannel.t -> Status * NodeChannel.t)
    (nodes : list Z) (idx : t) : Status * t :=
  match nodes with
  | [] => (OK, idx)
  | node :: rest =>
      match _node_channels idx !! node with
      | None => for_each_live f rest idx
      | Some ch =>
          if NodeChannel.already_failed ch then for_each_live f rest idx
          else
            let '(st, ch1) := f ch in
            let idx1 := with_node_channels (<[node := ch1]> (_node_channels idx)) idx in
            match st with
            | OK => for_each_live f rest idx1
            | Error _ =>
                let '(fatal, idx2) := handle_failed_node node idx1 in
                if fatal then (Error QuorumLost, idx2)
                else for_each_live f rest idx2
            end
      end
  end.

Definition all_nodes (idx : t) : list Z := (map_to_list (_node_channels idx)).*1.

(** Modelled from the spec: [IndexChannel::open] opens every
    NodeChannel, then waits for each of them. *)
Definition open (idx : t) : Status * t :=
  let idx1 := with_node_channels (NodeChannel.open <$> _node_channels idx) idx in
  for_each_live NodeChannel.open_wait (all_nodes idx1) idx1.

(** Modelled from the spec: [IndexChannel::add_row] fans the row out to
    every replica channel of the tablet that is not already failed. *)
Definition add_row (tuple : Tuple) (tablet_id : Z) (idx : t) : Status * t :=
  for_each_live (NodeChannel.add_row tuple tablet_id)
                (get_node_channels tablet_id idx) idx.

(** Modelled from the spec: [IndexChannel::close] closes every live
    NodeChannel, then waits for each of them. *)
Definition close (idx : t) : Status * t :=
  let '(st, idx1) := for_each_live NodeChannel.close (all_nodes idx) idx in
  match st with
  | OK => for_each_live NodeChannel.close_wait (all_nodes idx1) idx1
  | Error e => (Error e, idx1)
  end.

(** The life of an index channel after [open]: the rows are added one
    after the other until the first failure, then the channel is
    closed. *)
Fixpoint add_rows (rows : list (Tuple * Z)) (idx : t) : Status * t :=
  match rows with
  | [] => (OK, idx)
  | (tuple, tablet_id) :: rest =>
      let '(st, idx1) := add_row tuple tablet_id idx in
      match st with
      | OK => add_rows rest idx1
      | Error e => (Error e, idx1)
      end
  end.

Definition load (rows : list (Tuple * Z)) (idx : t) : Status * t :=
  let '(st, idx1) := open idx in
  match st with
  | Error e => (Error e, idx1)
  | OK =>
      let '(st, idx2) := add_rows rows idx1 in
      match st with
      | OK => close idx2
      | Error e => (Error e, idx2)
      end
  end.

(** The index channel after [open] and the first [k] rows of a load. *)
Definition after_rows (rows : list (Tuple * Z)) (k : nat) (idx : t) : t :=
  (add_rows (take k rows) (open idx).2).2.
End Quorum.

(** Modelled from the spec: [IndexChannel::cancel] cancels every
    NodeChannel. *)
Definition cancel (idx : t) : t :=
  with_node_channels (NodeChannel.cancel <$> _node_channels idx) idx.

End IndexChannel.

(** ** A table with one index and one tablet on three nodes *)

Module ThreeReplicas.

(** Tablet 501 of partition 1 has its replicas on the nodes 1, 2 and 3. *)
Definition location : gmap Z (list Z) := {[ 501 := [1; 2; 3] ]}.

Definition index_with (b1 b2 b3 : NodeChannel.Backend) : IndexChannel.t :=
  (IndexChannel.init {[ 1 := b1; 2 := b2; 3 := b3 ]} location None 2 [(1, 501)]
     (IndexChannel.new 3 0 1 77)).2.

(** All three backends accept every request. *)
Definition index : IndexChannel.t :=
  index_with NodeChannel.always_ok NodeChannel.always_ok NodeChannel.always_ok.

Definition rows : list (Tuple * Z) :=
  map (fun i => ([DNumber (Z.of_nat i)], 501)) (seq 0 7).

End ThreeReplicas.

(** ** class RowBuffer (tablet_sink.h, lines 205-258) *)

Module RowBuffer.

(** An element of [_queue]: the quadruple of an index channel pointer, a
    node channel pointer, a tablet id and a tuple pointer.  The index channel
    is given by its position in the [_channels] of the sink, the node channel
    by its node id, and the tuple is the copy that lives in [_buffer_pool]. *)
Record Item : Type := mkItem {
  item_index : nat;
  item_node : Z;
  item_tablet_id : Z;
  item_tuple : Tuple
}.

(** The members of the class.  [_queue_runtime_size] is a [std::size_t],
    held as its value in 0 .. 2^64 - 1.  The memory tracker of the buffer is
    its byte limit and the bytes that the pool holds. *)
Record t : Type := mk {
  _off : bool;
  _consume_err : bool;
  _queue_runtime_size : Z;
  _queue : list Item;
  _mem_limit : Z;
  _mem_consumption : Z;
  _consume_count : nat
}.

(** The conversion of an [int64_t] to [std::size_t], a 64-bit unsigned
    integer: the value modulo 2^64. *)
Definition to_size_t (v : Z) : Z := v mod 2 ^ 64.

(** The constructor [RowBuffer(tuple_desc, byte_limit, size_limit)]
    (lines 207-214).  Both limits are [int64_t]; [_queue_runtime_size] is
    initialised from [size_limit] through the conversion to [std::size_t]. *)
Definition new (byte_limit size_limit : Z) : t :=
  {| _off := false;
     _consume_err := false;
     _queue_runtime_size := to_size_t size_limit;
     _queue := [];
     _mem_limit := byte_limit;
     _mem_consumption := 0;
     _consume_count := 0 |}.


(** [workable] (line 227): [!_off && !_consume_err]. *)
Definition workable (b : t) : bool := negb (_off b) && negb (_consume_err b).



(** The queue holds as many items as it was built for. *)
Definition full (b : t) : bool :=
  _queue_runtime_size b <=? Z.of_nat (length (_queue b)).


Section Push.
(** The bytes that the deep copy of a tuple takes in the pool
    ([Tuple::deep_copy] is in runtime/tuple.h). *)
Variable tuple_bytes : Tuple -> Z.




End Push.

End RowBuffer.

(** ** class OlapTableSink (tablet_sink.h, lines 262-386) *)

Module OlapTableSink.

(** The declared type of a column of the destination table, as far as
    validation looks at it. *)
Inductive ColumnType : Type :=
  | TString (max_len : nat)
  | TDecimal (min max : Z)
  | TOther.

Record Column : Type := mkColumn {
  col_type : ColumnType;
  col_nullable : bool
}.

(** What [close] publishes in the runtime profile. *)
Record Profile : Type := mkProfile {
  input_rows : Z;
  output_rows : Z;
  filtered_rows : Z
}.

(** The members of the class that the data path uses.  [_columns] are the
    slots of [_output_tuple_desc]; an output expression computes one column
    of the output row from the input row. *)
Record t : Type := mk {
  _num_repicas : Z;
  _sender_id : Z;
  _need_validate_data : bool;
  _columns : list Column;
  _output_expr_ctxs : list (Tuple -> Datum);
  _partition_ids : gset Z;
  _filter_bitmap : list bool;
  _channels : list IndexChannel.t;
  _buffer_num : Z;
  _mem_limit_per_buf : Z;
  _size_limit_per_buf : Z;
  _buffers : list RowBuffer.t;
  _number_input_rows : Z;
  _number_output_rows : Z;
  _number_filtered_rows : Z
}.

(** The default member initialisers (lines 302-385). *)
Definition defaults : t :=
  {| _num_repicas := -1;
     _sender_id := -1;
     _need_validate_data := false;
     _columns := [];
     _output_expr_ctxs := [];
     _partition_ids := ∅;
     _filter_bitmap := [];
     _channels := [];
     _buffer_num := 0;
     _mem_limit_per_buf := 1024 * 1024;
     _size_limit_per_buf := 1024;
     _buffers := [];
     _number_input_rows := 0;
     _number_output_rows := 0;
     _number_filtered_rows := 0 |}.

(** The members that the sink takes from its description before it is
    opened; the others keep their default member initialisers. *)
Definition configure (num_repicas sender_id : Z) (need_validate_data : bool)
    (columns : list Column) (buffer_num mem_limit_per_buf size_limit_per_buf : Z) : t :=
  {| _num_repicas := num_repicas;
     _sender_id := sender_id;
     _need_validate_data := need_validate_data;
     _columns := columns;
     _output_expr_ctxs := _output_expr_ctxs defaults;
     _partition_ids := _partition_ids defaults;
     _filter_bitmap := _filter_bitmap defaults;
     _channels := _channels defaults;
     _buffer_num := buffer_num;
     _mem_limit_per_buf := mem_limit_per_buf;
     _size_limit_per_buf := size_limit_per_buf;
     _buffers := _buffers defaults;
     _number_input_rows := _number_input_rows defaults;
     _number_output_rows := _number_output_rows defaults;
     _number_filtered_rows := _number_filtered_rows defaults |}.

(** [_use_multi_thread] (line 292): [_buffer_num != 0]. *)
Definition _use_multi_thread (s : t) : bool := negb (_buffer_num s =? 0).

Definition with_buffer_num (n : Z) (s : t) : t :=
  {| _num_repicas := _num_repicas s; _sender_id := _sender_id s;
     _need_validate_data := _need_validate_data s; _columns := _columns s;
     _output_expr_ctxs := _output_expr_ctxs s;
     _partition_ids := _partition_ids s; _filter_bitmap := _filter_bitmap s;
     _channels := _channels s;
     _buffer_num := n;
     _mem_limit_per_buf := _mem_limit_per_buf s;
     _size_limit_per_buf := _size_limit_per_buf s;
     _buffers := _buffers s;
     _number_input_rows := _number_input_rows s;
     _number_output_rows := _number_output_rows s;
     _number_filtered_rows := _number_filtered_rows s |}.

(** The channels and the buffers: what routing a row works on. *)
Definition Routing : Type := (list IndexChannel.t * list RowBuffer.t)%type.

Definition routing (s : t) : Routing := (_channels s, _buffers s).

Definition with_routing (r : Routing) (s : t) : t :=
  {| _num_repicas := _num_repicas s; _sender_id := _sender_id s;
     _need_validate_data := _need_validate_data s; _columns := _columns s;
     _output_expr_ctxs := _output_expr_ctxs s;
     _partition_ids := _partition_ids s; _filter_bitmap := _filter_bitmap s;
     _channels := r.1;
     _buffer_num := _buffer_num s;
     _mem_limit_per_buf := _mem_limit_per_buf s;
     _size_limit_per_buf := _size_limit_per_buf s;
     _buffers := r.2;
     _number_input_rows := _number_input_rows s;
     _number_output_rows := _number_output_rows s;
     _number_filtered_rows := _number_filtered_rows s |}.

Definition with_partition_ids (ids : gset Z) (s : t) : t :=
  {| _num_repicas := _num_repicas s; _sender_id := _sender_id s;
     _need_validate_data := _need_validate_data s; _columns := _columns s;
     _output_expr_ctxs := _output_expr_ctxs s;
     _partition_ids := ids; _filter_bitmap := _filter_bitmap s;
     _channels := _channels s;
     _buffer_num := _buffer_num s;
     _mem_limit_per_buf := _mem_limit_per_buf s;
     _size_limit_per_buf := _size_limit_per_buf s;
     _buffers := _buffers s;
     _number_input_rows := _number_input_rows s;
     _number_output_rows := _number_output_rows s;
     _number_filtered_rows := _number_filtered_rows s |}.

Definition with_filter_bitmap (bitmap : list bool) (s : t) : t :=
  {| _num_repicas := _num_repicas s; _sender_id := _sender_id s;
     _need_validate_data := _need_validate_data s; _columns := _columns s;
     _output_expr_ctxs := _output_expr_ctxs s;
     _partition_ids := _partition_ids s; _filter_bitmap := bitmap;
     _channels := _channels s;
     _buffer_num := _buffer_num s;
     _mem_limit_per_buf := _mem_limit_per_buf s;
     _size_limit_per_buf := _size_limit_per_buf s;
     _buffers := _buffers s;
     _number_input_rows := _number_input_rows s;
     _number_output_rows := _number_output_rows s;
     _number_filtered_rows := _number_filtered_rows s |}.

Definition with_counters (input output filtered : Z) (s : t) : t :=
  {| _num_repicas := _num_repicas s; _sender_id := _sender_id s;
     _need_validate_data := _need_validate_data s; _columns := _columns s;
     _output_expr_ctxs := _output_expr_ctxs s;
     _partition_ids := _partition_ids s; _filter_bitmap := _filter_bitmap s;
     _channels := _channels s;
     _buffer_num := _buffer_num s;
     _mem_limit_per_buf := _mem_limit_per_buf s;
     _size_limit_per_buf := _size_limit_per_buf s;
     _buffers := _buffers s;
     _number_input_rows := input;
     _number_output_rows := output;
     _number_filtered_rows := filtered |}.

(** Modelled from the spec: the validation contract of a column.  A string
    is no longer than the declared maximum, a decimal is within the bounds
    of the column, and a column that is not nullable is not NULL. *)
Definition valid_datum (c : Column) (d : Datum) : bool :=
  match d with
  | DNull => col_nullable c
  | DString bytes =>
      match col_type c with
      | TString max_len => (length bytes <=? max_len)%nat
      | _ => true
      end
  | DNumber z =>
      match col_type c with
      | TDecimal min max => (min <=? z) && (z <=? max)
      | _ => true
      end
  end.

Fixpoint valid_tuple (cols : list Column) (tuple : Tuple) : bool :=
  match cols, tuple with
  | c :: cols', d :: tuple' => valid_datum c d && valid_tuple cols' tuple'
  | _, _ => true
  end.

(** Modelled from the spec: [_validate_data] (declared at line 290, body
    in the .cpp file) marks the invalid rows in the bitmap and returns
    their number. *)
Definition _validate_data (s : t) (batch : list Tuple) : Z * list bool :=
  let bitmap := map (fun tuple => negb (valid_tuple (_columns s) tuple)) batch in
  (Z.of_nat (length (List.filter id bitmap)), bitmap).

(** The packets that the channel of [node] under the index at position
    [index] has put on the wire: sequence number, rows and [eos]. *)
Definition packets (s : t) (index : nat) (node : Z) : list (Z * list Tuple * bool) :=
  match _channels s !! index with
  | Some idx =>
      match IndexChannel._node_channels idx !! node with
      | Some ch =>
          map (fun r => (NodeChannel.req_packet_seq r, NodeChannel.req_rows r,
                         NodeChannel.req_eos r)) (NodeChannel.wire ch)
      | None => []
      end
  | None => []
  end.


Section Send.
Variable quorum : Z -> Z.
(** [OlapTablePartitionParam::find_tablet] (exec/tablet_info.h): the
    partition of a row and, index by index, the tablet of the row in that
    partition; nothing for a row outside every partition. *)
Variable find_tablet : Tuple -> option (Z * list Z).
(** The multi-threaded routing of one row: the producer pushes one quadruple
    per index and replica channel into the row buffer [node_id % buffer_num],
    and the consumer threads, which run beside the producer, carry the
    quadruples to the node channels.  What this does to the channels and the
    buffers depends on how the threads interleave, and is left open. *)
Variable route_buffered : Tuple -> list Z -> Routing -> Status * Routing.
(** [_multi_thread_close(is_cancel)] (line 296): the normal end waits for
    the consumers to take what is left in the buffers, the cancelling one
    interrupts them at once. *)
Variable _multi_thread_close : bool -> Routing -> Routing.

(** Modelled from the spec: [_convert_batch] (declared at line 285, body in
    the .cpp file) fills an output batch of the size of the input with the
    projected rows. *)
Definition _convert_batch (s : t) (input_batch : list Tuple) : list Tuple :=
  map (fun row => map (fun expr => expr row) (_output_expr_ctxs s)) input_batch.

(** Modelled from the spec: the single-threaded routing of [send].  The row
    goes to the index channels, each with the tablet of the row under that
    index; the first failure ends it. *)
Fixpoint route_direct (tuple : Tuple) (tablets : list Z)
    (chs : list IndexChannel.t) : Status * list IndexChannel.t :=
  match chs, tablets with
  | idx :: chs', tablet_id :: tablets' =>
      let '(st, idx1) := IndexChannel.add_row quorum tuple tablet_id idx in
      match st with
      | OK =>
          let '(st', rest) := route_direct tuple tablets' chs' in
          (st', idx1 :: rest)
      | Error e => (Error e, idx1 :: chs')
      end
  | _, _ => (OK, chs)
  end.

Definition route_row (s : t) (tuple : Tuple) (tablets : list Z) : Status * Routing :=
  if _use_multi_thread s
  then route_buffered tuple tablets (routing s)
  else
    let '(st, chs) := route_direct tuple tablets (_channels s) in
    (st, (chs, _buffers s)).

(** Modelled from the spec: the body of the row loop of [send], for row [i]
    of the batch.  A row marked in the bitmap is skipped; a row outside
    every partition is counted as filtered; any other row is routed, and
    counted as output when the routing returns OK. *)
Definition send_row (i : nat) (tuple : Tuple) (s : t) : Status * t :=
  if default false (_filter_bitmap s !! i) then (OK, s)
  else
    match find_tablet tuple with
    | None =>
        (OK, with_counters (_number_input_rows s) (_number_output_rows s)
               (int64_add (_number_filtered_rows s) 1) s)
    | Some (partition_id, tablets) =>
        let s1 := with_partition_ids ({[ partition_id ]} ∪ _partition_ids s) s in
        let '(st, r) := route_row s1 tuple tablets in
        let s2 := with_routing r s1 in
        match st with
        | OK =>
            (OK, with_counters (_number_input_rows s2)
                   (int64_add (_number_output_rows s2) 1)
                   (_number_filtered_rows s2) s2)
        | Error e => (Error e, s2)
        end
    end.

Fixpoint send_rows (i : nat) (batch : list Tuple) (s : t) : Status * t :=
  match batch with
  | [] => (OK, s)
  | tuple :: rest =>
      let '(st, s1) := send_row i tuple s in
      match st with
      | OK => send_rows (S i) rest s1
      | Error e => (Error e, s1)
      end
  end.

(** Modelled from the spec: what [send] does with the output batch.  When
    validation is on, the invalid rows are marked in the bitmap and counted
    as filtered; then the rows are routed one after the other. *)
Definition send_output (batch : list Tuple) (s : t) : Status * t :=
  let '(num_invalid, bitmap) :=
    if _need_validate_data s then _validate_data s batch
    else (0, map (fun _ => false) batch) in
  let s1 := with_filter_bitmap bitmap
              (with_counters (_number_input_rows s) (_number_output_rows s)
                 (int64_add (_number_filtered_rows s) num_invalid) s) in
  send_rows 0 batch s1.

(** The batch that [send] validates and routes: with output expressions
    the converted batch, otherwise the input batch as it is. *)
Definition output_batch (s : t) (input_batch : list Tuple) : list Tuple :=
  match _output_expr_ctxs s with
  | [] => input_batch
  | _ :: _ => _convert_batch s input_batch
  end.

(** Modelled from the spec: [OlapTableSink::send] (declared at line 275,
    body in the .cpp file).  The rows of the input batch are counted as
    input; with output expressions the batch is converted; the output batch
    is then validated and routed.  The first failure of the routing ends the
    call with that status. *)
Definition send (input_batch : list Tuple) (s : t) : Status * t :=
  let s1 := with_counters
              (int64_add (_number_input_rows s) (Z.of_nat (length input_batch)))
              (_number_output_rows s) (_number_filtered_rows s) s in
  send_output (output_batch s1 input_batch) s1.





(** The batches of a load, sent one after the other until a [send] fails. *)
Fixpoint send_all (batches : list (list Tuple)) (s : t) : Status * t :=
  match batches with
  | [] => (OK, s)
  | batch :: rest =>
      let '(st, s1) := send batch s in
      match st with
      | OK => send_all rest s1
      | Error e => (Error e, s1)
      end
  end.

Fixpoint close_channels (chs : list IndexChannel.t) : Status * list IndexChannel.t :=
  match chs with
  | [] => (OK, [])
  | idx :: rest =>
      let '(st, idx1) := IndexChannel.close quorum idx in
      let '(st', rest1) := close_channels rest in
      (match st with OK => st' | Error e => Error e end, idx1 :: rest1)
  end.

Definition profile_of (s : t) : Profile :=
  {| input_rows := _number_input_rows s;
     output_rows := _number_output_rows s;
     filtered_rows := _number_filtered_rows s |}.

(** Modelled from the spec: [OlapTableSink::close] (declared at line 277,
    body in the .cpp file).  With a failed upstream status every index
    channel is cancelled and the row buffers are ended at once; otherwise
    the row buffers are drained and every index channel is closed.  The
    counters go to the profile, and the status is the first one that is not
    OK. *)
Definition close (close_status : Status) (s : t) : Status * t * Profile :=
  match close_status with
  | Error e =>
      let r := if _use_multi_thread s then _multi_thread_close true (routing s)
               else routing s in
      (Error e, with_routing (map IndexChannel.cancel r.1, r.2) s, profile_of s)
  | OK =>
      let r := if _use_multi_thread s then _multi_thread_close false (routing s)
               else routing s in
      let '(st, chs) := close_channels r.1 in
      (st, with_routing (chs, r.2) s, profile_of s)
  end.

(** Modelled from the spec: [OlapTableSink::open] (declared at line 273,
    body in the .cpp file) builds one index channel per index of the schema,
    given as (index id, schema hash, tablets), opens each of them and returns
    the first failure; in multi-threaded mode it creates [_buffer_num] row
    buffers. *)
Fixpoint build_channels (nodes_info : gmap Z NodeChannel.Backend)
    (location : gmap Z (list Z)) (rpc_timeout_ms : option Z) (batch_size : nat)
    (indexes : list (Z * Z * list (Z * Z))) (s : t)
    : Status * list IndexChannel.t :=
  match indexes with
  | [] => (OK, [])
  | (index_id, schema_hash, tablets) :: rest =>
      let '(st, idx) :=
        IndexChannel.init nodes_info location rpc_timeout_ms batch_size tablets
          (IndexChannel.new (_num_repicas s) (_sender_id s) index_id schema_hash) in
      match st with
      | Error e => (Error e, [])
      | OK =>
          let '(st1, idx1) := IndexChannel.open quorum idx in
          match st1 with
          | Error e => (Error e, [idx1])
          | OK =>
              let '(st2, chs) :=
                build_channels nodes_info location rpc_timeout_ms batch_size rest s in
              (st2, idx1 :: chs)
          end
      end
  end.

Definition open (nodes_info : gmap Z NodeChannel.Backend)
    (location : gmap Z (list Z)) (rpc_timeout_ms : option Z) (batch_size : nat)
    (indexes : list (Z * Z * list (Z * Z))) (s : t) : Status * t :=
  let '(st, chs) :=
    build_channels nodes_info location rpc_timeout_ms batch_size indexes s in
  let bufs :=
    if _use_multi_thread s
    then replicate (Z.to_nat (_buffer_num s))
           (RowBuffer.new (_mem_limit_per_buf s) (_size_limit_per_buf s))
    else [] in
  (st, with_routing (chs, bufs) s).
End Send.

End OlapTableSink.

(** ** A load into a table with a key column and a string column *)

Module LoadExample.

(** A decimal key within [-999, 999] that is not nullable, and a nullable
    string of at most 3 bytes. *)
Definition columns : list OlapTableSink.Column :=
  [OlapTableSink.mkColumn (OlapTableSink.TDecimal (-999) 999) false;
   OlapTableSink.mkColumn (OlapTableSink.TString 3) true].

(** One partition, with id 1, for the keys that are not negative; its only
    tablet under the only index is 501. *)
Definition find_tablet (tuple : Tuple) : option (Z * list Z) :=
  match tuple with
  | DNumber key :: _ => if 0 <=? key then Some (1, [501]) else None
  | _ => None
  end.


Definition nodes_info : gmap Z NodeChannel.Backend :=
  {[ 1 := NodeChannel.always_ok; 2 := NodeChannel.always_ok; 3 := NodeChannel.always_ok ]}.

(** The multi-threaded mode is off, so its two operations are never used. *)
Definition no_route_buffered (tuple : Tuple) (tablets : list Z)
    (r : OlapTableSink.Routing) : Status * OlapTableSink.Routing := (OK, r).
Definition no_multi_thread_close (is_cancel : bool)
    (r : OlapTableSink.Routing) : OlapTableSink.Routing := r.

Definition sink : OlapTableSink.t :=
  (OlapTableSink.open IndexChannel.strict_majority nodes_info ThreeReplicas.location
     None 2 [(1, 77, [(1, 501)])]
     (OlapTableSink.configure 3 0 true columns 0 (1024 * 1024) 1024)).2.

Definition send_all :=
  OlapTableSink.send_all IndexChannel.strict_majority find_tablet no_route_buffered.

Definition close :=
  OlapTableSink.close IndexChannel.strict_majority no_multi_thread_close.

(** Two batches: a good row, a row whose decimal is out of bounds, a row
    outside every partition; then two good rows. *)
Definition batches : list (list Tuple) :=
  [ [ [DNumber 1; DString [97]]; [DNumber 5000; DNull]; [DNumber (-5); DNull] ];
    [ [DNumber 2; DNull]; [DNumber 3; DString [98; 99]] ] ].

End LoadExample.

(** ** time_report (tablet_sink.h, lines 106-111 and 170-177) *)

Module TimeReport.

(** What a [time_report] adds to: the two [int64_t] that the caller passes by
    pointer and the map, from backend id to counter, that it passes by
    reference. *)
Record t : Type := mk {
  serialize_batch_ns : Z;
  wait_in_flight_packet_ns : Z;
  add_batch_counter_map : gmap Z AddBatchCounter.t
}.

(** [map[key] += counter]: [operator[]] of [std::unordered_map] makes a
    default-constructed entry for a key that is missing, and [+=] is the one
    of [AddBatchCounter]. *)
Definition add_at (key : Z) (counter : AddBatchCounter.t)
    (m : gmap Z AddBatchCounter.t) : gmap Z AddBatchCounter.t :=
  <[key := AddBatchCounter.add_assign
             (default AddBatchCounter.default (m !! key)) counter]> m.

End TimeReport.

Module NodeChannelTimes.

(** The members of a NodeChannel that [time_report] reads (lines 123 and
    143-146). *)
Record t : Type := mk {
  _node_id : Z;
  _serialize_batch_ns : Z;
  _wait_in_flight_packet_ns : Z;
  _add_batch_counter : AddBatchCounter.t
}.

(** [NodeChannel::time_report] (lines 106-111). *)
Definition time_report (ch : t) (r : TimeReport.t) : TimeReport.t :=
  {| TimeReport.serialize_batch_ns :=
       int64_add (TimeReport.serialize_batch_ns r) (_serialize_batch_ns ch);
     TimeReport.wait_in_flight_packet_ns :=
       int64_add (TimeReport.wait_in_flight_packet_ns r) (_wait_in_flight_packet_ns ch);
     TimeReport.add_batch_counter_map :=
       TimeReport.add_at (_node_id ch) (_add_batch_counter ch)
         (TimeReport.add_batch_counter_map r) |}.

(** The channels of a list report one after the other. *)
Definition report_all (chs : list t) (r : TimeReport.t) : TimeReport.t :=
  foldl (fun acc ch => time_report ch acc) r chs.

End NodeChannelTimes.

Module IndexChannelTimes.

(** The members of an IndexChannel that [time_report] reads (lines
    195-199). *)
Record t : Type := mk {
  _serialize_batch_ns : Z;
  _wait_in_flight_packet_ns : Z;
  _add_batch_counter_map : gmap Z AddBatchCounter.t
}.

(** The default member initialisers: both times are 0 and the map is
    empty. *)
Definition defaults : t := mk 0 0 ∅.

(** The loop of [time_report] over the items of [_add_batch_counter_map],
    taken in the order of [items]: [add_batch_counter_map[item.first] +=
    item.second]. *)
Definition add_items (items : list (Z * AddBatchCounter.t))
    (m : gmap Z AddBatchCounter.t) : gmap Z AddBatchCounter.t :=
  foldl (fun acc item => TimeReport.add_at item.1 item.2 acc) m items.

(** [IndexChannel::time_report] (lines 170-177), with the items of the
    unordered map visited in the order of [items]. *)
Definition time_report_in (items : list (Z * AddBatchCounter.t)) (idx : t)
    (r : TimeReport.t) : TimeReport.t :=
  {| TimeReport.serialize_batch_ns :=
       int64_add (TimeReport.serialize_batch_ns r) (_serialize_batch_ns idx);
     TimeReport.wait_in_flight_packet_ns :=
       int64_add (TimeReport.wait_in_flight_packet_ns r) (_wait_in_flight_packet_ns idx);
     TimeReport.add_batch_counter_map :=
       add_items items (TimeReport.add_batch_counter_map r) |}.

Definition time_report (idx : t) (r : TimeReport.t) : TimeReport.t :=
  time_report_in (map_to_list (_add_batch_counter_map idx)) idx r.

(** The members of an index channel into which its node channels have
    reported, through the two pointers and the map reference that
    [NodeChannel::time_report] takes. *)
Definition collect (chs : list NodeChannelTimes.t) : t :=
  let r := NodeChannelTimes.report_all chs
             (TimeReport.mk (_serialize_batch_ns defaults)
                (_wait_in_flight_packet_ns defaults)
                (_add_batch_counter_map defaults)) in
  mk (TimeReport.serialize_batch_ns r) (TimeReport.wait_in_flight_packet_ns r)
     (TimeReport.add_batch_counter_map r).

End IndexChannelTimes.

(** ** Sums of counters *)

Module AddBatchCounterSum.

(** The counters of a list added to [c] with [+=], one after the other. *)
Definition sum (c : AddBatchCounter.t) (l : list AddBatchCounter.t) : AddBatchCounter.t :=
  foldl AddBatchCounter.add_assign c l.

(** The sum over the integers of one field over a list of counters. *)
Definition total (field : AddBatchCounter.t -> Z) (l : list AddBatchCounter.t) : Z :=
  foldr (fun c acc => field c + acc) 0 l.

End AddBatchCounterSum.

(** ** What the packets of a channel carry *)

Module Wire.

(** The rows of the packets with their tablet ids, in the order in which
    they left the channel. *)
Definition rows_of (wire : list NodeChannel.AddBatchRequest) : list (Tuple * Z) :=
  flat_map (fun r => zip (NodeChannel.req_rows r) (NodeChannel.req_tablet_ids r)) wire.

End Wire.

(** ** Sample values for the keys and the reports *)

Module Samples.

(** A hash of the 128-bit id and a hash of an [int64_t] under a seed. *)
Definition uid_hash (a : UniqueId.t) : Z := Z.lxor (UniqueId.hi a) (UniqueId.lo a).
Definition hash_int64 (v seed : Z) : Z := wrap 64 (31 * seed + v).

Definition counter_a : AddBatchCounter.t := AddBatchCounter.mk 1500 20 3.
Definition counter_b : AddBatchCounter.t := AddBatchCounter.mk 700 5 1.
Definition counter_c : AddBatchCounter.t := AddBatchCounter.mk 40 0 2.

(** Two channels on node 10002 (under two indexes) and one on node 10003. *)
Definition channels : list NodeChannelTimes.t :=
  [NodeChannelTimes.mk 10002 11 7 counter_a;
   NodeChannelTimes.mk 10003 5 0 counter_b;
   NodeChannelTimes.mk 10002 2 1 counter_c].

Definition report : TimeReport.t :=
  TimeReport.mk 100 50 {[ 10003 := counter_c ]}.

End Samples.

(** ** A load during which two of the three nodes reject every packet *)

Module LostQuorumExample.

(** Node 1 accepts every request; the nodes 2 and 3 accept the open request
    and reject every add-batch packet. *)
Definition nodes_info : gmap Z NodeChannel.Backend :=
  {[ 1 := NodeChannel.always_ok; 2 := NodeChannel.drops_at 0; 3 := NodeChannel.drops_at 0 ]}.

(** The sink of [LoadExample] over these nodes: one index, tablet 501 on the
    nodes 1, 2 and 3, two rows to a packet, validation on, the multi-threaded
    mode off. *)
Definition sink : OlapTableSink.t :=
  (OlapTableSink.open IndexChannel.strict_majority nodes_info ThreeReplicas.location
     None 2 [(1, 77, [(1, 501)])]
     (OlapTableSink.configure 3 0 true LoadExample.columns 0 (1024 * 1024) 1024)).2.

(** One batch of five rows, all valid and all in partition 1. *)
Definition batch : list Tuple :=
  map (fun i => [DNumber (Z.of_nat i); DNull]) (seq 1 5).

End LostQuorumExample.

(** * Properties *)

(** ** Machine integers *)

Lemma wrap_in_range (w z : Z) : 0 < w -> in_range w (wrap w z).
Proof.
  intros Hw. unfold in_range, wrap.
  assert (Hp : 0 < 2 ^ (w - 1)) by (apply Z.pow_pos_nonneg; lia).
  assert (H2 : 2 ^ w = 2 * 2 ^ (w - 1)).
  { replace w with (Z.succ (w - 1)) at 1 by lia. apply Z.pow_succ_r. lia. }
  pose proof (Z.mod_pos_bound (z + 2 ^ (w - 1)) (2 ^ w)) as Hb. lia.
Qed.

Lemma wrap_id (w z : Z) : 0 < w -> in_range w z -> wrap w z = z.
Proof.
  intros Hw Hz. unfold in_range in Hz. unfold wrap.
  assert (H2 : 2 ^ w = 2 * 2 ^ (w - 1)).
  { replace w with (Z.succ (w - 1)) at 1 by lia. apply Z.pow_succ_r. lia. }
  rewrite Z.mod_small; lia.
Qed.

Lemma wrap_add_l (w a b : Z) : 0 < w -> wrap w (wrap w a + b) = wrap w (a + b).
Proof.
  intros Hw. unfold wrap.
  assert (Hp : 0 < 2 ^ w) by (apply Z.pow_pos_nonneg; lia).
  f_equal.
  replace ((a + 2 ^ (w - 1)) mod 2 ^ w - 2 ^ (w - 1) + b + 2 ^ (w - 1))
    with ((a + 2 ^ (w - 1)) mod 2 ^ w + b) by lia.
  rewrite Zplus_mod_idemp_l. f_equal. lia.
Qed.

Lemma wrap_add_r (w a b : Z) : 0 < w -> wrap w (a + wrap w b) = wrap w (a + b).
Proof.
  intros Hw. rewrite (Z.add_comm a (wrap w b)), wrap_add_l by done.
  f_equal. lia.
Qed.

Lemma int64_add_comm (a b : Z) : int64_add a b = int64_add b a.
Proof. unfold int64_add. f_equal. lia. Qed.

Lemma int64_add_assoc (a b c : Z) :
  int64_add (int64_add a b) c = int64_add a (int64_add b c).
Proof.
  unfold int64_add. rewrite wrap_add_l, wrap_add_r by lia. f_equal. lia.
Qed.

Lemma int64_add_0_r (a : Z) : is_int64 a -> int64_add a 0 = a.
Proof. intros Ha. unfold int64_add. rewrite Z.add_0_r. apply wrap_id; [lia | exact Ha]. Qed.

Lemma int64_add_is_int64 (a b : Z) : is_int64 (int64_add a b).
Proof. apply wrap_in_range. lia. Qed.


(** ** AddBatchCounter *)

Section AddBatchCounterFacts.
Import AddBatchCounter.

Lemma add_assign_wf (a b : t) : wf (add_assign a b).
Proof. repeat split; apply int64_add_is_int64. Qed.

Lemma add_assign_comm (a b : t) : add_assign a b = add_assign b a.
Proof.
  unfold add_assign. f_equal; apply int64_add_comm.
Qed.

Lemma add_assign_assoc (a b c : t) :
  add_assign (add_assign a b) c = add_assign a (add_assign b c).
Proof.
  unfold add_assign; cbn. f_equal; apply int64_add_assoc.
Qed.

Lemma add_assign_default_r (a : t) : wf a -> add_assign a default = a.
Proof.
  intros (H1 & H2 & H3). destruct a as [x y z]; cbn in *.
  unfold add_assign; cbn. f_equal; by apply int64_add_0_r.
Qed.

(** C9: [operator+=] adds the three fields componentwise as 64-bit
    integers, [operator+] returns what [+=] leaves in its left operand, the
    operation is commutative and associative, it stays within the 64-bit
    counters, and the default-constructed counter (all fields 0) is its
    identity on both sides. *)
Theorem AddBatchCounter_commutative_monoid (a b c : t) :
  wf a ->
  add_assign a b =
    mk (int64_add (add_batch_execution_time_us a) (add_batch_execution_time_us b))
       (int64_add (add_batch_wait_lock_time_us a) (add_batch_wait_lock_time_us b))
       (int64_add (add_batch_num a) (add_batch_num b)) /\
  add a b = add_assign a b /\
  add a b = add b a /\
  add (add a b) c = add a (add b c) /\
  default = mk 0 0 0 /\
  add a default = a /\ add default a = a /\
  wf (add a b).
Proof.
  intros Ha. unfold add.
  split; [reflexivity |]. split; [reflexivity |].
  split; [apply add_assign_comm |]. split; [apply add_assign_assoc |].
  split; [reflexivity |].
  split; [by apply add_assign_default_r |].
  split; [rewrite add_assign_comm; by apply add_assign_default_r |].
  apply add_assign_wf.
Qed.

Lemma AddBatchCounter_commutative_monoid_witness :
  let a := mk 1500 20 3 in
  let b := mk 700 5 1 in
  let c := mk (2 ^ 63 - 1) 0 9 in
  wf a /\ add a b = mk 2200 25 4 /\ add a b = add b a /\
  add (add a b) c = add a (add b c) /\ add a default = a.
Proof.
  intros a b c.
  assert (Ha : wf a) by (unfold wf, is_int64, in_range; cbn; lia).
  pose proof (AddBatchCounter_commutative_monoid a b c Ha)
    as (_ & _ & Hcomm & Hassoc & _ & Hid & _).
  split; [exact Ha |]. split; [reflexivity |].
  split; [exact Hcomm |]. split; [exact Hassoc | exact Hid].
Defined.

End AddBatchCounterFacts.

(** ** TabletsChannelKey *)

Lemma UniqueId_eq_spec (a b : UniqueId.t) : UniqueId.eq a b = true <-> a = b.
Proof.
  destruct a as [h1 l1], b as [h2 l2]. unfold UniqueId.eq; cbn.
  rewrite andb_true_iff, !Z.eqb_eq. split.
  - intros [-> ->]. reflexivity.
  - intros [= -> ->]. done.
Qed.

Section TabletsChannelKeyFacts.
Import TabletsChannelKey.
Context {UniqueId : Type}.
Variable uid_eq : UniqueId -> UniqueId -> bool.
Hypothesis uid_eq_spec : forall a b, uid_eq a b = true <-> a = b.

Lemma key_eq_iff (k1 k2 : t UniqueId) :
  eq uid_eq k1 k2 = true <-> index_id k1 = index_id k2 /\ uid_eq (id k1) (id k2) = true.
Proof. unfold eq. by rewrite andb_true_iff, Z.eqb_eq. Qed.

(** C10: [k1 == k2] is true exactly when the two index ids are equal and the
    two load ids compare equal; the relation is reflexive, symmetric and
    transitive, and two keys compare equal exactly when they are the same
    (load id, index id) pair. *)
Theorem TabletsChannelKey_eq_equivalence (k1 k2 k3 : t UniqueId) :
  (eq uid_eq k1 k2 = true <->
     index_id k1 = index_id k2 /\ uid_eq (id k1) (id k2) = true) /\
  eq uid_eq k1 k1 = true /\
  eq uid_eq k1 k2 = eq uid_eq k2 k1 /\
  (eq uid_eq k1 k2 = true -> eq uid_eq k2 k3 = true -> eq uid_eq k1 k3 = true) /\
  (eq uid_eq k1 k2 = true <-> k1 = k2).
Proof.
  assert (Hleib : forall a b : t UniqueId, eq uid_eq a b = true <-> a = b).
  { intros [i1 x1] [i2 x2]. rewrite key_eq_iff; cbn. rewrite uid_eq_spec. split.
    - intros [-> ->]. reflexivity.
    - intros [= -> ->]. done. }
  split; [apply key_eq_iff |].
  split; [by apply Hleib |].
  split.
  - destruct (eq uid_eq k1 k2) eqn:E12, (eq uid_eq k2 k1) eqn:E21; try reflexivity.
    + apply Hleib in E12. symmetry in E12. apply Hleib in E12. congruence.
    + apply Hleib in E21. symmetry in E21. apply Hleib in E21. congruence.
  - split; [| apply Hleib].
    intros H12 H23. apply Hleib in H12, H23. apply Hleib. congruence.
Qed.


(** Keys that compare equal have the same hash, whatever the two hash
    functions are. *)
Lemma hasher_eq (uid_hash : UniqueId -> Z) (hash_int64 : Z -> Z -> Z)
    (k1 k2 : t UniqueId) :
  eq uid_eq k1 k2 = true -> hasher uid_hash hash_int64 k1 = hasher uid_hash hash_int64 k2.
Proof.
  intros [Hi Hu]%key_eq_iff. apply uid_eq_spec in Hu. unfold hasher.
  by rewrite Hi, Hu.
Qed.

End TabletsChannelKeyFacts.

Lemma TabletsChannelKey_eq_equivalence_witness :
  let k1 := TabletsChannelKey.mk (UniqueId.mk 7 9) 10001 in
  let k2 := TabletsChannelKey.mk (UniqueId.mk 7 9) 10001 in
  let k3 := TabletsChannelKey.mk (UniqueId.mk 7 8) 10001 in
  TabletsChannelKey.eq UniqueId.eq k1 k2 = true /\
  TabletsChannelKey.eq UniqueId.eq k2 k3 = false /\
  (TabletsChannelKey.eq UniqueId.eq k1 k2 = true <-> k1 = k2).
Proof.
  intros k1 k2 k3.
  pose proof (TabletsChannelKey_eq_equivalence UniqueId.eq UniqueId_eq_spec k1 k2 k3)
    as (_ & _ & _ & _ & Hleib).
  split; [reflexivity |]. split; [reflexivity | exact Hleib].
Defined.

(** ** NodeChannel *)

Section NodeChannelFacts.
Import NodeChannel.

(** C8: a freshly constructed NodeChannel has an RPC timeout of 60000
    milliseconds, that is 60 seconds: it is the default member initialiser
    of [_rpc_timeout_ms], which the constructor leaves alone, and [init]
    keeps it when the configuration carries no timeout. *)
Theorem NodeChannel_default_rpc_timeout
    (sender_id index_id node_id schema_hash : Z) :
  _rpc_timeout_ms defaults = 60000 /\
  _rpc_timeout_ms (new sender_id index_id node_id schema_hash) = 60000 /\
  60000 = 60 * 1000 /\
  (forall nodes_info batch_size ch,
     init nodes_info None batch_size (new sender_id index_id node_id schema_hash) = (OK, ch) ->
     _rpc_timeout_ms ch = 60000).
Proof.
  split; [reflexivity |]. split; [reflexivity |]. split; [reflexivity |].
  intros nodes_info batch_size ch. unfold init.
  destruct (nodes_info !! _) as [backend |]; [| discriminate].
  intros [= <-]. reflexivity.
Qed.

Lemma init_fresh nodes_info timeout batch_size ch ch' :
  init nodes_info timeout batch_size ch = (OK, ch') ->
  _next_packet_seq ch' = _next_packet_seq ch /\ wire ch' = wire ch /\
  _index_id ch' = _index_id ch /\ _parent_sender_id ch' = _parent_sender_id ch /\
  _has_in_flight_packet ch' = _has_in_flight_packet ch.
Proof.
  unfold init. destruct (nodes_info !! _); [| discriminate].
  intros [= <-]. done.
Qed.

Lemma packet_seqs_S (n : nat) : packet_seqs (S n) = packet_seqs n ++ [Z.of_nat n].
Proof. unfold packet_seqs. by rewrite seq_S, map_app. Qed.

Lemma wait_frame (ch : t) :
  let ch' := (_wait_in_flight_packet ch).2 in
  wire ch' = wire ch /\ _next_packet_seq ch' = _next_packet_seq ch /\
  _index_id ch' = _index_id ch /\ _parent_sender_id ch' = _parent_sender_id ch /\
  _batch ch' = _batch ch /\ _batch_capacity ch' = _batch_capacity ch.
Proof. unfold _wait_in_flight_packet. by destruct (_has_in_flight_packet ch). Qed.

(** A send either fails while waiting for the packet in flight, and then
    nothing is put on the wire, or it puts exactly one request on the wire,
    numbered with the current sequence number, and increments that number
    by one. *)
Lemma send_cur_batch_cases (eos : bool) (ch : t) :
  let '(st, ch') := _send_cur_batch eos ch in
  ((exists e, st = Error e /\ wire ch' = wire ch /\
             _next_packet_seq ch' = _next_packet_seq ch) \/
  (st = OK /\
   exists req, wire ch' = wire ch ++ [req] /\
     req_packet_seq req = _next_packet_seq ch /\ req_eos req = eos /\
     req_index_id req = _index_id ch /\ req_sender_id req = _parent_sender_id ch /\
     req_rows req = map fst (_batch ch) /\ req_tablet_ids req = map snd (_batch ch) /\
     _next_packet_seq ch' = int64_add (_next_packet_seq ch) 1 /\
     _has_in_flight_packet ch' = true /\ _batch ch' = [])) /\
  _index_id ch' = _index_id ch /\ _parent_sender_id ch' = _parent_sender_id ch /\
  _batch_capacity ch' = _batch_capacity ch.
Proof.
  unfold _send_cur_batch.
  pose proof (wait_frame ch) as (Hw & Hn & Hi & Hs & Hb & Hc).
  destruct (_wait_in_flight_packet ch) as [st ch1]; cbn in *.
  destruct st as [| e].
  - split; [| done]. right. split; [done |].
    eexists. cbn. rewrite Hw, Hn, Hi, Hs, Hb. done.
  - split; [| done]. left. by exists e.
Qed.

Lemma send_cur_batch_inv (eos : bool) (ch : t) (st : Status) (ch' : t) :
  _send_cur_batch eos ch = (st, ch') ->
  seq_ok ch -> no_eos ch ->
  seq_ok ch' /\
  match st with
  | OK => exists req, wire ch' = wire ch ++ [req] /\ req_eos req = eos
  | Error _ => wire ch' = wire ch
  end.
Proof.
  intros Hsend (Hnext & Hseqs & Hids) Hno.
  pose proof (send_cur_batch_cases eos ch) as Hc. rewrite Hsend in Hc.
  destruct Hc as [[(e & -> & Hw & Hn) | (-> & req & Hw & Hq & He & Hi & Hs & _ & _ & Hn & _)]
                    (Hidx & Hsnd & _)].
  - split; [| done]. unfold seq_ok. by rewrite Hw, Hn, Hidx, Hsnd.
  - split; [| by exists req]. unfold seq_ok.
    rewrite Hw, length_app, Nat.add_1_r, Hn, Hidx, Hsnd; cbn [length].
    split; [| split].
    + rewrite Hnext. unfold int64_add. rewrite wrap_add_l by lia. f_equal. lia.
    + rewrite packet_seqs_S, !map_app, Hseqs; cbn. by rewrite Hq, Hnext.
    + apply Forall_app. split; [done |]. by repeat constructor.
Qed.

Lemma add_row_inv tuple tablet_id (ch : t) (st : Status) (ch' : t) :
  add_row tuple tablet_id ch = (st, ch') ->
  seq_ok ch -> no_eos ch -> seq_ok ch' /\ no_eos ch'.
Proof.
  unfold add_row. intros Hadd Hok Hno.
  destruct (_ <=? _)%nat.
  - apply send_cur_batch_inv in Hadd as [Hok' Hst]; [| done | done].
    split; [done |]. unfold no_eos in *.
    destruct st; [| by rewrite Hst].
    destruct Hst as (req & -> & He). apply Forall_app. split; [done |].
    by repeat constructor.
  - by injection Hadd as <- <-.
Qed.

Lemma add_rows_inv rows (ch : t) (st : Status) (ch' : t) :
  add_rows rows ch = (st, ch') ->
  seq_ok ch -> no_eos ch -> seq_ok ch' /\ no_eos ch'.
Proof.
  revert ch. induction rows as [| [tuple tablet_id] rest IH]; intros ch; cbn.
  - by intros [= <- <-].
  - destruct (add_row tuple tablet_id ch) as [st1 ch1] eqn:Hadd.
    intros Hrest Hok Hno.
    destruct (add_row_inv _ _ _ _ _ Hadd Hok Hno) as [Hok1 Hno1].
    destruct st1; [by eapply IH | by injection Hrest as <- <-].
Qed.

(** At most one packet per added row has left the channel. *)
Lemma add_rows_wire_length rows (ch : t) (st : Status) (ch' : t) :
  add_rows rows ch = (st, ch') ->
  (length (wire ch') <= length (wire ch) + length rows)%nat.
Proof.
  revert ch. induction rows as [| [tuple tablet_id] rest IH]; intros ch; cbn.
  - intros [= <- <-]. lia.
  - destruct (add_row tuple tablet_id ch) as [st1 ch1] eqn:Hadd.
    assert (H1 : (length (wire ch1) <= S (length (wire ch)))%nat).
    { unfold add_row in Hadd. destruct (_ <=? _)%nat.
      - pose proof (send_cur_batch_cases false (with_batch (_batch ch ++ [(tuple, tablet_id)]) ch)) as Hc.
        rewrite Hadd in Hc.
        destruct Hc as [[(e & _ & -> & _) | (_ & req & -> & _)] _]; cbn.
        + lia.
        + rewrite length_app; cbn. lia.
      - injection Hadd as <- <-. cbn. lia. }
    intros Hrest. destruct st1.
    + apply IH in Hrest. lia.
    + injection Hrest as <- <-. lia.
Qed.

Lemma map_wrap_packet_seqs (n : nat) :
  Z.of_nat n <= 2 ^ 63 -> map (wrap 64) (packet_seqs n) = packet_seqs n.
Proof.
  intros Hn. unfold packet_seqs. rewrite map_map. apply map_ext_in.
  intros i Hi. apply in_seq in Hi. apply wrap_id; [lia |].
  unfold in_range. change (2 ^ (64 - 1)) with (2 ^ 63). lia.
Qed.

(** C2: a channel starts with [_next_packet_seq = 0] and nothing on the
    wire; every batch that is sent carries the current value and increments
    it by exactly one; so a session that adds any rows and closes without an
    RPC failure has put on the wire the packets 0, 1, ..., N in this order,
    without a gap and without a duplicate, each with the ids of the channel,
    and exactly the last one has [eos = true]. *)
Theorem NodeChannel_packet_sequence
    (sender_id index_id node_id schema_hash : Z)
    (nodes_info : gmap Z Backend) (timeout : option Z) (batch_size : nat)
    (rows : list (Tuple * Z)) (ch0 ch : t) :
  init nodes_info timeout batch_size (new sender_id index_id node_id schema_hash)
    = (OK, ch0) ->
  Z.of_nat (length rows) < 2 ^ 63 - 1 ->
  session rows ch0 = (OK, ch) ->
  _next_packet_seq ch0 = 0 /\ wire ch0 = [] /\
  (forall (eos : bool) (c c' : t),
     _send_cur_batch eos c = (OK, c') ->
     _next_packet_seq c' = int64_add (_next_packet_seq c) 1 /\
     exists req, wire c' = wire c ++ [req] /\
       req_packet_seq req = _next_packet_seq c /\ req_eos req = eos) /\
  exists N : nat,
    map req_packet_seq (wire ch) = packet_seqs (S N) /\
    map req_eos (wire ch) = replicate N false ++ [true] /\
    _next_packet_seq ch = Z.of_nat N + 1 /\
    Forall (fun r => req_index_id r = index_id /\ req_sender_id r = sender_id) (wire ch).
Proof.
  intros Hinit Hlen Hsession.
  apply init_fresh in Hinit as (Hn0 & Hw0 & Hi0 & Hs0 & _).
  cbn in Hn0, Hw0, Hi0, Hs0.
  split; [done |]. split; [done |].
  split.
  { intros eos c c' Hsend.
    pose proof (send_cur_batch_cases eos c) as Hc. rewrite Hsend in Hc.
    destruct Hc as [[(e & [=] & _) | (_ & req & Hw & Hq & He & _ & _ & _ & _ & Hn & _)] _].
    split; [done |]. by exists req. }
  assert (Hok0 : seq_ok ch0) by (unfold seq_ok; rewrite Hw0, Hn0; done).
  assert (Hno0 : no_eos ch0) by (unfold no_eos; rewrite Hw0; constructor).
  unfold session in Hsession.
  destruct (add_rows rows ch0) as [st1 ch1] eqn:Hadd.
  destruct st1; [| discriminate].
  pose proof (add_rows_wire_length _ _ _ _ Hadd) as Hbound. rewrite Hw0 in Hbound. cbn [length] in Hbound.
  destruct (add_rows_inv _ _ _ _ Hadd Hok0 Hno0) as [Hok1 Hno1].
  unfold close in Hsession.
  destruct (send_cur_batch_inv _ _ _ _ Hsession Hok1 Hno1)
    as [(Hnext & Hseqs & Hids) (req & Hw & Heos)].
  pose proof (send_cur_batch_cases true ch1) as Hc. rewrite Hsession in Hc.
  destruct Hc as [_ (Hidx & Hsnd & _)].
  assert (Hidx1 : _index_id ch = index_id).
  { clear -Hadd Hsession Hi0 Hidx.
    rewrite Hidx, <- Hi0. clear Hidx Hsession Hi0.
    revert ch0 Hadd. induction rows as [| [tu ta] rest IH]; intros ch0; cbn.
    - by intros [= <-].
    - destruct (add_row tu ta ch0) as [s c] eqn:Ha. destruct s; [| discriminate].
      intros Hr. rewrite (IH _ Hr). unfold add_row in Ha.
      destruct (_ <=? _)%nat; [| by injection Ha as <-].
      pose proof (send_cur_batch_cases false (with_batch (_batch ch0 ++ [(tu, ta)]) ch0)) as Hc.
      rewrite Ha in Hc. by destruct Hc as [_ (-> & _ & _)]. }
  assert (Hsnd1 : _parent_sender_id ch = sender_id).
  { clear -Hadd Hsession Hs0 Hsnd.
    rewrite Hsnd, <- Hs0. clear Hsnd Hsession Hs0.
    revert ch0 Hadd. induction rows as [| [tu ta] rest IH]; intros ch0; cbn.
    - by intros [= <-].
    - destruct (add_row tu ta ch0) as [s c] eqn:Ha. destruct s; [| discriminate].
      intros Hr. rewrite (IH _ Hr). unfold add_row in Ha.
      destruct (_ <=? _)%nat; [| by injection Ha as <-].
      pose proof (send_cur_batch_cases false (with_batch (_batch ch0 ++ [(tu, ta)]) ch0)) as Hc.
      rewrite Ha in Hc. by destruct Hc as [_ (_ & -> & _)]. }
  exists (length (wire ch1)).
  assert (Hlen1 : length (wire ch) = S (length (wire ch1))).
  { rewrite Hw, length_app; cbn. lia. }
  rewrite Hlen1 in Hnext, Hseqs.
  rewrite map_wrap_packet_seqs in Hseqs by lia.
  split; [done |]. split.
  - rewrite Hw, map_app; cbn. rewrite Heos. f_equal.
    clear -Hno1. unfold no_eos in Hno1.
    induction Hno1 as [| r l Hr _ IH]; cbn; [done |]. by rewrite Hr, IH.
  - split.
    + rewrite Hnext. rewrite wrap_id; [lia | lia |].
      unfold in_range. change (2 ^ (64 - 1)) with (2 ^ 63). lia.
    + by rewrite <- Hidx1, <- Hsnd1.
Qed.

End NodeChannelFacts.

Section NodeChannelExamples.
Import NodeChannel.

Lemma NodeChannel_packet_sequence_witness :
  let nodes_info : gmap Z Backend := {[ 10002 := always_ok ]} in
  let rows := [([DNumber 1], 501); ([DNumber 2], 502); ([DNumber 3], 501);
               ([DNumber 4], 501); ([DNumber 5], 502)] in
  let ch0 := (init nodes_info None 2 (new 0 1 10002 77)).2 in
  let ch := (session rows ch0).2 in
  init nodes_info None 2 (new 0 1 10002 77) = (OK, ch0) /\
  session rows ch0 = (OK, ch) /\
  map req_packet_seq (wire ch) = [0; 1; 2] /\
  map req_eos (wire ch) = [false; false; true] /\
  exists N : nat,
    map req_packet_seq (wire ch) = packet_seqs (S N) /\
    map req_eos (wire ch) = replicate N false ++ [true] /\
    _next_packet_seq ch = Z.of_nat N + 1 /\
    Forall (fun r => req_index_id r = 1 /\ req_sender_id r = 0) (wire ch).
Proof.
  intros nodes_info rows ch0 ch.
  assert (H1 : init nodes_info None 2 (new 0 1 10002 77) = (OK, ch0)) by (vm_compute; reflexivity).
  assert (H2 : Z.of_nat (length rows) < 2 ^ 63 - 1) by (vm_compute; reflexivity).
  assert (H3 : session rows ch0 = (OK, ch)) by (vm_compute; reflexivity).
  split; [exact H1 |]. split; [exact H3 |].
  split; [vm_compute; reflexivity |]. split; [vm_compute; reflexivity |].
  exact (proj2 (proj2 (proj2 (NodeChannel_packet_sequence 0 1 10002 77 nodes_info None 2 rows ch0 ch H1 H2 H3)))).
Defined.

(** A single node behind a single index, 1000 rows and a batch capacity of
    300: the receiver sees the packets 0 to 3, the last one with [eos], and
    the rows 900 to 999 are in packet 3. *)
Example scenario_1000_rows_capacity_300 :
  let nodes_info : gmap Z Backend := {[ 10002 := always_ok ]} in
  let rows := map (fun i => ([DNumber (Z.of_nat i)], 501)) (seq 0 1000) in
  let ch0 := (init nodes_info None 300 (new 0 1 10002 77)).2 in
  let '(st, ch) := session rows ch0 in
  st = OK /\
  map req_packet_seq (wire ch) = [0; 1; 2; 3] /\
  map req_eos (wire ch) = [false; false; false; true] /\
  (req_rows <$> last (wire ch)) =
    Some (map (fun i => [DNumber (Z.of_nat i)]) (seq 900 100)).
Proof. vm_compute. done. Qed.

End NodeChannelExamples.

(** ** IndexChannel *)

Section IndexChannelFacts.
Import IndexChannel.
Variable quorum : Z -> Z.

Lemma set_failed_failed (ch : NodeChannel.t) :
  NodeChannel.already_failed ch = true -> NodeChannel.set_failed ch = ch.
Proof. destruct ch; cbn. by intros ->. Qed.

(** The two ways out of [handle_failed_node]: the channel is not live and
    nothing changes, or it is live and gets marked. *)
Lemma handle_failed_node_cases (node : Z) (idx : t) :
  let r := handle_failed_node quorum node idx in
  (live idx node = false /\ r = (false, idx)) \/
  (live idx node = true /\
   r.1 = tablet_below_quorum quorum node r.2 /\
   _num_failed_channels r.2 = int32_add (_num_failed_channels idx) 1 /\
   exists ch, _node_channels idx !! node = Some ch /\
              NodeChannel.already_failed ch = false /\
              _node_channels r.2 = <[node := NodeChannel.set_failed ch]> (_node_channels idx)).
Proof.
  unfold handle_failed_node, _handle_failed_node, live.
  destruct (_node_channels idx !! node) as [ch |] eqn:Hch; cbn.
  - destruct (NodeChannel.already_failed ch) eqn:Hf; cbn.
    + by left.
    + right. repeat split. by exists ch.
  - by left.
Qed.

Lemma handle_failed_node_frame (node : Z) (idx : t) :
  let idx' := (handle_failed_node quorum node idx).2 in
  _channels_by_tablet idx' = _channels_by_tablet idx /\
  _parent_num_repicas idx' = _parent_num_repicas idx /\
  _node_channels idx' = alter NodeChannel.set_failed node (_node_channels idx).
Proof.
  unfold handle_failed_node, _handle_failed_node.
  destruct (_node_channels idx !! node) as [ch |] eqn:Hch; cbn.
  - destruct (NodeChannel.already_failed ch) eqn:Hf; cbn.
    + repeat split. symmetry. apply alter_id. intros x Hx.
      rewrite Hch in Hx. injection Hx as <-. by apply set_failed_failed.
    + repeat split. apply map_eq. intros j.
      rewrite lookup_alter, lookup_insert. case_decide; subst; [by rewrite Hch | done].
  - repeat split. symmetry. by apply alter_id'.
Qed.

Lemma quorum_ok_ext (a b : t) :
  _channels_by_tablet a = _channels_by_tablet b ->
  _parent_num_repicas a = _parent_num_repicas b ->
  _node_channels a = _node_channels b ->
  quorum_ok quorum a = quorum_ok quorum b.
Proof. destruct a, b; cbn. by intros -> -> ->. Qed.

Lemma mark_all_failed_ext (nodes : list Z) (a b : t) :
  _channels_by_tablet a = _channels_by_tablet b ->
  _parent_num_repicas a = _parent_num_repicas b ->
  _node_channels a = _node_channels b ->
  quorum_ok quorum (mark_all_failed nodes a) = quorum_ok quorum (mark_all_failed nodes b).
Proof.
  revert a b. induction nodes as [| n rest IH]; intros a b Ht Hr Hn; cbn.
  - by apply quorum_ok_ext.
  - apply IH; cbn; [done | done | by rewrite Hn].
Qed.

Lemma live_after_alter (node : Z) (a b : t) (n : Z) :
  _node_channels b = alter NodeChannel.set_failed node (_node_channels a) ->
  live b n = live a n && negb (n =? node).
Proof.
  intros Hb. unfold live. rewrite Hb, lookup_alter. case_decide as Hd.
  - subst n. rewrite Z.eqb_refl, andb_false_r.
    by destruct (_node_channels a !! node).
  - assert (Hne : (n =? node) = false) by (apply Z.eqb_neq; congruence).
    by rewrite Hne, andb_true_r.
Qed.

Lemma live_replicas_other (node : Z) (a b : t) (nodes : list Z) :
  _node_channels b = alter NodeChannel.set_failed node (_node_channels a) ->
  existsb (Z.eqb node) nodes = false ->
  live_replicas b nodes = live_replicas a nodes.
Proof.
  intros Hb Hnot. unfold live_replicas. do 2 f_equal.
  apply List.filter_ext_in. intros n Hn.
  rewrite (live_after_alter node a b n Hb).
  destruct (Z.eqb_spec n node) as [-> | Hne]; [| apply andb_true_r].
  assert (Hex : existsb (Z.eqb node) nodes = true).
  { apply existsb_exists. exists node. split; [done | apply Z.eqb_refl]. }
  congruence.
Qed.

(** Marking one channel costs a tablet at most one live replica. *)
Lemma live_replicas_after_alter (node : Z) (a b : t) (nodes : list Z) :
  _node_channels b = alter NodeChannel.set_failed node (_node_channels a) ->
  NoDup nodes ->
  live_replicas a nodes - 1 <= live_replicas b nodes <= live_replicas a nodes.
Proof.
  intros Hb Hnd. unfold live_replicas.
  enough (Hgoal :
    (length (List.filter (live b) nodes) <= length (List.filter (live a) nodes) /\
     length (List.filter (live a) nodes) <= S (length (List.filter (live b) nodes)) /\
     (node ∉ nodes ->
      length (List.filter (live b) nodes) = length (List.filter (live a) nodes)))%nat)
    by lia.
  induction Hnd as [| n rest Hn Hnd IH]; cbn; [repeat split; lia |].
  destruct IH as (IH1 & IH2 & IH3).
  rewrite (live_after_alter node a b n Hb).
  destruct (Z.eqb_spec n node) as [-> | Hne].
  - rewrite andb_false_r. specialize (IH3 Hn).
    split; [destruct (live a node); cbn; lia |].
    split; [destruct (live a node); cbn; lia |].
    intros Hnot. exfalso. apply Hnot. by left.
  - rewrite andb_true_r. destruct (live a n); cbn.
    + split; [lia |]. split; [lia |]. intros Hnot. f_equal. apply IH3.
      intros Hin. apply Hnot. by right.
    + split; [lia |]. split; [lia |]. intros Hnot. apply IH3.
      intros Hin. apply Hnot. by right.
Qed.

Lemma below_quorum_complement (node : Z) (a b : t) (l : list (Z * list Z)) :
  _node_channels b = alter NodeChannel.set_failed node (_node_channels a) ->
  _parent_num_repicas b = _parent_num_repicas a ->
  forallb (fun kv => has_quorum quorum a kv.2) l = true ->
  existsb (fun kv => existsb (Z.eqb node) kv.2 && negb (has_quorum quorum b kv.2)) l
  = negb (forallb (fun kv => has_quorum quorum b kv.2) l).
Proof.
  intros Hb Hr. induction l as [| kv rest IH]; cbn; [done |].
  intros [Hhead Hrest]%andb_true_iff. rewrite (IH Hrest), negb_andb.
  destruct (existsb (Z.eqb node) kv.2) eqn:Hin; cbn; [done |].
  unfold has_quorum in *.
  by rewrite (live_replicas_other node a b _ Hb Hin), Hr, Hhead.
Qed.

(** On an index whose tablets all have their quorum, [handle_failed_node]
    answers [true] exactly when some tablet has lost it. *)
Lemma handle_failed_node_verdict (node : Z) (idx : t) :
  quorum_ok quorum idx = true ->
  (handle_failed_node quorum node idx).1
  = negb (quorum_ok quorum (handle_failed_node quorum node idx).2).
Proof.
  intros Hok.
  pose proof (handle_failed_node_frame node idx) as (Ht & Hr & Hn).
  destruct (handle_failed_node_cases node idx) as [[_ ->] | (_ & -> & _)].
  - cbn. by rewrite Hok.
  - unfold tablet_below_quorum, quorum_ok. cbn zeta in Ht. rewrite Ht.
    by apply (below_quorum_complement node idx).
Qed.

Lemma fail_nodes_verdict (nodes : list Z) (idx : t) :
  quorum_ok quorum idx = true ->
  (fail_nodes quorum nodes idx).1 = false <->
  forall k : nat, quorum_ok quorum (mark_all_failed (take k nodes) idx) = true.
Proof.
  revert idx. induction nodes as [| node rest IH]; intros idx Hok.
  - cbn. split; [| done]. intros _ k. by rewrite take_nil.
  - cbn [fail_nodes].
    pose proof (handle_failed_node_verdict node idx Hok) as Hv.
    pose proof (handle_failed_node_frame node idx) as (Ht & Hr & Hn).
    destruct (handle_failed_node quorum node idx) as [fatal idx1]; cbn in Hv, Ht, Hr, Hn.
    assert (Hsame : forall l, quorum_ok quorum (mark_all_failed l idx1)
                              = quorum_ok quorum (mark_all_failed l (mark_failed idx node))).
    { intros l. by apply mark_all_failed_ext. }
    assert (Hstep : forall k, mark_all_failed (take (S k) (node :: rest)) idx
                              = mark_all_failed (take k rest) (mark_failed idx node))
      by reflexivity.
    destruct fatal; cbn [fst].
    + split; [done |]. intros Hall. specialize (Hall 1%nat).
      rewrite Hstep, <- Hsame in Hall. change (quorum_ok quorum idx1 = true) in Hall.
      by rewrite Hall in Hv.
    + assert (Hok1 : quorum_ok quorum idx1 = true)
        by (by destruct (quorum_ok quorum idx1)).
      rewrite (IH idx1 Hok1). split.
      * intros Hall [| k]; [exact Hok |]. rewrite Hstep, <- Hsame. apply Hall.
      * intros Hall k. specialize (Hall (S k)). by rewrite Hstep, <- Hsame in Hall.
Qed.

(** One report keeps [_num_failed_channels] equal to the number of
    channels marked failed. *)
Lemma handle_failed_node_count (node : Z) (idx : t) :
  _num_failed_channels idx = Z.of_nat (failed_count idx) ->
  Z.of_nat (size (_node_channels idx)) < 2 ^ 31 ->
  let idx' := (handle_failed_node quorum node idx).2 in
  _num_failed_channels idx' = Z.of_nat (failed_count idx') /\
  size (_node_channels idx') = size (_node_channels idx).
Proof.
  intros Hinv Hsize.
  destruct (handle_failed_node_cases node idx)
    as [[_ ->] | (_ & _ & Hnum & ch & Hch & Hf & Hnc)]; [done |].
  cbn zeta. set (idx' := (handle_failed_node quorum node idx).2) in *.
  assert (Hcount : failed_count idx' = S (failed_count idx)).
  { unfold failed_count. rewrite Hnc.
    rewrite map_filter_insert_True by done.
    apply map_size_insert_None, map_lookup_filter_None_2. right.
    intros x Hx. rewrite Hch in Hx. injection Hx as <-. cbn. congruence. }
  assert (Hsz : size (_node_channels idx') = size (_node_channels idx)).
  { rewrite Hnc. by apply map_size_insert_Some. }
  split; [| done].
  pose proof (map_size_filter
    (fun kc : Z * NodeChannel.t => NodeChannel.already_failed kc.2 = true)
    (_node_channels idx')) as Hle.
  fold (failed_count idx') in Hle.
  rewrite Hnum, Hcount, Hinv. unfold int32_add. rewrite wrap_id; [lia | lia |].
  unfold in_range. change (2 ^ (32 - 1)) with (2 ^ 31). lia.
Qed.

(** An index that has just been initialised has no failed channel. *)
Lemma attach_no_failure (tablet : Z * Z) (idx : t) (node : Z) :
  no_failure idx -> no_failure (attach tablet idx node).
Proof.
  intros [Hnum Hall]. split; [done |]. cbn.
  apply map_Forall_insert_2; [| done].
  destruct (_node_channels idx !! node) as [ch |] eqn:Hch; cbn; [| done].
  exact (Hall node ch Hch).
Qed.

Lemma attach_tablet_no_failure (location : gmap Z (list Z)) (idx : t) (tablet : Z * Z) :
  no_failure idx -> no_failure (attach_tablet location idx tablet).
Proof.
  unfold attach_tablet. generalize (default [] (location !! tablet.2)). intros nodes.
  revert idx. induction nodes as [| node rest IH]; intros idx Hidx; cbn; [done |].
  by apply IH, attach_no_failure.
Qed.

Lemma init_channels_no_failure nodes_info rpc_timeout_ms batch_size
    (chs : list (Z * NodeChannel.t)) (idx idx' : t) (st : Status) :
  init_channels nodes_info rpc_timeout_ms batch_size chs idx = (st, idx') ->
  Forall (fun kc => NodeChannel.already_failed kc.2 = false) chs ->
  no_failure idx -> no_failure idx'.
Proof.
  revert idx. induction chs as [| [node ch] rest IH]; intros idx; cbn.
  - by intros [= _ <-].
  - unfold NodeChannel.init.
    destruct (nodes_info !! NodeChannel._node_id ch) as [backend |].
    + intros Hrest [Hch Hall]%Forall_cons [Hnum Hidx].
      apply (IH _ Hrest Hall). split; [done |]. cbn.
      by apply map_Forall_insert_2.
    + by intros [= _ <-].
Qed.

Lemma init_no_failure nodes_info location rpc_timeout_ms batch_size tablets
    (num_repicas sender_id index_id schema_hash : Z) (st : Status) (idx : t) :
  init nodes_info location rpc_timeout_ms batch_size tablets
    (new num_repicas sender_id index_id schema_hash) = (st, idx) ->
  no_failure idx.
Proof.
  unfold init.
  set (idx1 := foldl (attach_tablet location) _ tablets).
  assert (H1 : no_failure idx1).
  { subst idx1.
    assert (H0 : no_failure (new num_repicas sender_id index_id schema_hash))
      by (split; [done | apply map_Forall_empty]).
    revert H0. generalize (new num_repicas sender_id index_id schema_hash).
    induction tablets as [| tablet rest IH]; intros idx0 H0; cbn; [done |].
    by apply IH, attach_tablet_no_failure. }
  intros Hinit. apply (init_channels_no_failure _ _ _ _ _ _ _ Hinit); [| done].
  destruct H1 as [_ Hall]. apply map_Forall_to_list in Hall.
  eapply Forall_impl; [exact Hall |]. by intros [node ch].
Qed.

Lemma no_failure_count (idx : t) :
  no_failure idx -> _num_failed_channels idx = Z.of_nat (failed_count idx).
Proof.
  intros [-> Hall]. unfold failed_count.
  replace (filter _ (_node_channels idx)) with (∅ : gmap Z NodeChannel.t);
    [by rewrite map_size_empty |].
  symmetry. apply map_empty. intros node. apply map_lookup_filter_None_2. right.
  intros ch Hch. cbn. rewrite (Hall node ch Hch). discriminate.
Qed.

End IndexChannelFacts.

Section IndexChannelRules.
Import IndexChannel.

Lemma strict_majority_least (R : Z) : R < 2 * strict_majority R <= R + 2.
Proof.
  unfold strict_majority.
  pose proof (Z.div_mod R 2 ltac:(lia)). pose proof (Z.mod_pos_bound R 2 ltac:(lia)). lia.
Qed.

(** With the formula ⌈R/2⌉ + 1 and R = 3 a tablet needs all three replicas:
    under it, and under any quorum that agrees with it at R = 3, the report
    of one failed channel already loses the load; and the load that survives
    one failed channel (strict majority) does so with 2 live replicas, fewer
    than ⌈3/2⌉ + 1 = 3. *)
Lemma IndexChannel_quorum_ceil_counterexample :
  let idx := ThreeReplicas.index in
  _parent_num_repicas idx = 3 /\
  ceil_half_plus_one 3 = 3 /\
  quorum_ok ceil_half_plus_one idx = true /\
  (fail_nodes ceil_half_plus_one [2] idx).1 = true /\
  (fail_nodes strict_majority [2] idx).1 = false /\
  live_replicas (fail_nodes strict_majority [2] idx).2 [1; 2; 3] = 2 /\
  quorum_ok ceil_half_plus_one (mark_all_failed [2] idx) = false /\
  ~ (exists quorum : Z -> Z,
       quorum 3 = ceil_half_plus_one 3 /\ (fail_nodes quorum [2] idx).1 = false).
Proof.
  cbn zeta. do 7 (split; [vm_compute; reflexivity |]).
  intros (quorum & Hq & Hsurvive).
  vm_compute in Hq, Hsurvive. rewrite Hq in Hsurvive. discriminate.
Qed.

(** One node of three drops during the load: the index marks it failed,
    the other two go on, and the load ends OK. *)
Example scenario_one_of_three_drops :
  let idx := ThreeReplicas.index_with
               NodeChannel.always_ok (NodeChannel.drops_at 1) NodeChannel.always_ok in
  let '(st, idx') := load strict_majority ThreeReplicas.rows idx in
  st = OK /\ _num_failed_channels idx' = 1 /\
  (NodeChannel.already_failed <$> _node_channels idx' !! 2) = Some true /\
  (length ∘ NodeChannel.wire <$> _node_channels idx' !! 1) = Some 4%nat /\
  (length ∘ NodeChannel.wire <$> _node_channels idx' !! 3) = Some 4%nat.
Proof. vm_compute. done. Qed.

(** Two nodes of three drop: the quorum is lost. *)
Example scenario_two_of_three_drop :
  let idx := ThreeReplicas.index_with
               NodeChannel.always_ok (NodeChannel.drops_at 1) (NodeChannel.drops_at 1) in
  let '(st, idx') := load strict_majority ThreeReplicas.rows idx in
  st = Error QuorumLost /\ _num_failed_channels idx' = 2.
Proof. vm_compute. done. Qed.

(** C7: [handle_failed_node] on a channel that is already marked failed
    returns [false] and leaves the index as it is, [_num_failed_channels]
    and the failed marks (hence every live-replica count) included; a
    second call for the same channel is such a call.  So, through any
    sequence of calls, [_num_failed_channels] stays equal to the number of
    channels marked failed, as it is after [init], when both are 0. *)
Theorem IndexChannel_handle_failed_node_idempotent
    (quorum : Z -> Z) (idx : t) (node : Z) (nodes : list Z) :
  _num_failed_channels idx = Z.of_nat (failed_count idx) ->
  Z.of_nat (size (_node_channels idx)) < 2 ^ 31 ->
  ((NodeChannel.already_failed <$> _node_channels idx !! node) = Some true ->
   handle_failed_node quorum node idx = (false, idx)) /\
  (let idx1 := (handle_failed_node quorum node idx).2 in
   handle_failed_node quorum node idx1 = (false, idx1)) /\
  (let idxn := foldl (fun i n => (handle_failed_node quorum n i).2) idx nodes in
   _num_failed_channels idxn = Z.of_nat (failed_count idxn)) /\
  (forall nodes_info location rpc_timeout_ms batch_size tablets
          num_repicas sender_id index_id schema_hash st idx0,
     init nodes_info location rpc_timeout_ms batch_size tablets
       (new num_repicas sender_id index_id schema_hash) = (st, idx0) ->
     _num_failed_channels idx0 = Z.of_nat (failed_count idx0)).
Proof.
  intros Hinv Hsize. split; [| split; [| split]]; cycle 3.
  { intros * Hinit. eapply no_failure_count, init_no_failure, Hinit. }
  - unfold handle_failed_node, _handle_failed_node.
    destruct (_node_channels idx !! node) as [ch |]; cbn; [| done].
    by intros [= ->].
  - cbn zeta.
    pose proof (handle_failed_node_frame quorum node idx) as (_ & _ & Hn).
    cbn zeta in Hn.
    destruct (handle_failed_node_cases quorum node
                (handle_failed_node quorum node idx).2) as [[_ H] | (Hlive & _)];
      [by rewrite H at 1 |].
    rewrite (live_after_alter node idx _ node Hn), Z.eqb_refl, andb_false_r in Hlive.
    discriminate.
  - cbn zeta. revert idx Hinv Hsize.
    induction nodes as [| n rest IH]; intros idx Hinv Hsize; cbn; [done |].
    destruct (handle_failed_node_count quorum n idx Hinv Hsize) as [Hinv1 Hsize1].
    apply IH; [done | by rewrite Hsize1].
Qed.

Lemma IndexChannel_handle_failed_node_idempotent_witness :
  let idx := ThreeReplicas.index in
  let idx1 := (handle_failed_node strict_majority 2 idx).2 in
  _num_failed_channels idx = Z.of_nat (failed_count idx) /\
  Z.of_nat (size (_node_channels idx)) < 2 ^ 31 /\
  handle_failed_node strict_majority 2 idx1 = (false, idx1) /\
  _num_failed_channels idx1 = 1 /\
  (let idxn := foldl (fun i n => (handle_failed_node strict_majority n i).2) idx [2; 2; 3; 2] in
   _num_failed_channels idxn = Z.of_nat (failed_count idxn)).
Proof.
  intros idx idx1.
  assert (H1 : _num_failed_channels idx = Z.of_nat (failed_count idx))
    by (vm_compute; reflexivity).
  assert (H2 : Z.of_nat (size (_node_channels idx)) < 2 ^ 31)
    by (vm_compute; reflexivity).
  destruct (IndexChannel_handle_failed_node_idempotent strict_majority idx 2 [2; 2; 3; 2] H1 H2)
    as (_ & Hsecond & Hcount & _).
  split; [exact H1 |]. split; [exact H2 |]. split; [exact Hsecond |].
  split; [vm_compute; reflexivity | exact Hcount].
Defined.

End IndexChannelRules.

(** ** RowBuffer *)

Section RowBufferFacts.
Import RowBuffer.
Variable tuple_bytes : Tuple -> Z.

(** C5: [workable] is [!_off && !_consume_err]: it is true exactly when the
    buffer has not been turned off and the consumer has not failed. *)
Theorem RowBuffer_workable (b : t) :
  workable b = negb (_off b) && negb (_consume_err b) /\
  (workable b = true <-> _off b = false /\ _consume_err b = false).
Proof.
  split; [reflexivity |]. unfold workable.
  by rewrite andb_true_iff, !negb_true_iff.
Qed.

(** The size of the queue is the [size_limit] of the constructor as a
    [std::size_t]: a limit that is not negative as it is, a negative one
    with 2^64 added. *)
Lemma new_queue_runtime_size (byte_limit size_limit : Z) :
  is_int64 size_limit ->
  _queue_runtime_size (new byte_limit size_limit)
  = (if size_limit <? 0 then size_limit + 2 ^ 64 else size_limit) /\
  0 <= _queue_runtime_size (new byte_limit size_limit) < 2 ^ 64.
Proof.
  unfold is_int64, in_range. change (2 ^ (64 - 1)) with (2 ^ 63). intros Hr.
  cbn [new _queue_runtime_size]. unfold to_size_t.
  split; [| apply Z.mod_pos_bound; lia].
  destruct (Z.ltb_spec size_limit 0).
  - symmetry. apply (Z.mod_unique_pos _ _ (-1)); lia.
  - apply Z.mod_small. lia.
Qed.





End RowBufferFacts.


(** ** OlapTableSink *)

Section OlapTableSinkMode.
Import OlapTableSink.

(** C4: the multi-threaded mode is on exactly when [_buffer_num]
    is not 0.  So 0 turns it off, which is also the default, and every
    [_buffer_num] greater than 0 turns it on; for a [_buffer_num] that is
    not negative, it is on exactly when [_buffer_num > 0]. *)
Theorem OlapTableSink_use_multi_thread (s : t) :
  (_use_multi_thread s = true <-> _buffer_num s <> 0) /\
  (_buffer_num s = 0 -> _use_multi_thread s = false) /\
  (0 < _buffer_num s -> _use_multi_thread s = true) /\
  (0 <= _buffer_num s -> (_use_multi_thread s = true <-> 0 < _buffer_num s)) /\
  _use_multi_thread defaults = false.
Proof.
  unfold _use_multi_thread.
  destruct (Z.eqb_spec (_buffer_num s) 0) as [H0 | Hne]; cbn.
  - repeat split; try done; try lia.
  - repeat split; try done; try lia.
Qed.

Lemma OlapTableSink_use_multi_thread_witness :
  let s := with_buffer_num 4 defaults in
  0 < _buffer_num s /\ _use_multi_thread s = true.
Proof.
  intros s. assert (H : 0 < _buffer_num s) by (vm_compute; reflexivity).
  destruct (OlapTableSink_use_multi_thread s) as (_ & _ & Hpos & _).
  exact (conj H (Hpos H)).
Defined.

(** With a negative [_buffer_num] the mode is on although [_buffer_num > 0]
    does not hold. *)
Lemma OlapTableSink_use_multi_thread_negative :
  let s := with_buffer_num (-1) defaults in
  is_int32 (_buffer_num s) /\
  _use_multi_thread s = true /\ ~ (0 < _buffer_num s).
Proof. cbn. unfold is_int32, in_range. repeat split; lia. Qed.

End OlapTableSinkMode.

Section OlapTableSinkCounters.
Import OlapTableSink.
Variable quorum : Z -> Z.
Variable find_tablet : Tuple -> option (Z * list Z).
Variable route_buffered : Tuple -> list Z -> Routing -> Status * Routing.
Variable _multi_thread_close : bool -> Routing -> Routing.




















End OlapTableSinkCounters.

Section OlapTableSinkExamples.
Import OlapTableSink.



(** The load of the example ends OK; the row with the decimal out of bounds
    and the row outside every partition are in no packet, and each of the
    three replicas has received the three good rows in the packets 0 and 1,
    the last with [eos]. *)
Example scenario_filtered_rows :
  let '(st, s1) := LoadExample.send_all LoadExample.batches LoadExample.sink in
  let '(st', s2, profile) := LoadExample.close st s1 in
  st' = OK /\ profile = mkProfile 5 3 2 /\
  _partition_ids s2 = {[ 1 ]} /\
  (forall node, node ∈ [1; 2; 3] ->
     packets s2 0 node
     = [ (0, [[DNumber 1; DString [97]]; [DNumber 2; DNull]], false);
         (1, [[DNumber 3; DString [98; 99]]], true) ]).
Proof.
  vm_compute. split; [done |]. split; [done |]. split; [done |].
  intros node Hnode. repeat (apply elem_of_cons in Hnode as [-> | Hnode]; [done |]).
  by apply elem_of_nil in Hnode.
Qed.

(** With [_buffer_num = 0] the sink has no row buffer after [open], and
    [send] routes through the index channels only. *)
Lemma single_thread_no_buffers (quorum : Z -> Z)
    (route_buffered : Tuple -> list Z -> Routing -> Status * Routing)
    nodes_info location rpc_timeout_ms batch_size indexes (s : t) :
  _buffer_num s = 0 ->
  let s1 := (open quorum nodes_info location rpc_timeout_ms batch_size indexes s).2 in
  _buffers s1 = [] /\ _use_multi_thread s1 = false /\
  forall tuple tablets,
    route_row quorum route_buffered s1 tuple tablets
    = ((route_direct quorum tuple tablets (_channels s1)).1,
       ((route_direct quorum tuple tablets (_channels s1)).2, [])).
Proof.
  intros H0. unfold open.
  destruct (build_channels _ _ _ _ _ _ _) as [st chs].
  assert (Hmode : _use_multi_thread s = false) by (unfold _use_multi_thread; by rewrite H0).
  rewrite Hmode. cbn. split; [done |].
  assert (Hmode1 : _use_multi_thread (with_routing (chs, []) s) = false) by exact Hmode.
  split; [done |]. intros tuple tablets. unfold route_row. rewrite Hmode1. cbn.
  by destruct (route_direct quorum tuple tablets chs).
Qed.

End OlapTableSinkExamples.

(** * Further properties *)

(** ** Sums of counters *)

Lemma foldl_comm_permutation {A B : Type} (f : B -> A -> B) :
  (forall b x y, f (f b x) y = f (f b y) x) ->
  forall l l' : list A, l ≡ₚ l' -> forall b, foldl f b l = foldl f b l'.
Proof.
  intros Hcomm l l' Hperm.
  induction Hperm as [| x l l' _ IH | x y l | l1 l2 l3 _ IH1 _ IH2]; intros b; cbn.
  - done.
  - apply IH.
  - by rewrite Hcomm.
  - by rewrite IH1.
Qed.

Lemma add_assign_swap (a b c : AddBatchCounter.t) :
  AddBatchCounter.add_assign (AddBatchCounter.add_assign a b) c
  = AddBatchCounter.add_assign (AddBatchCounter.add_assign a c) b.
Proof.
  rewrite !add_assign_assoc. f_equal. apply add_assign_comm.
Qed.

Lemma add_assign_default_absorb (a c : AddBatchCounter.t) :
  AddBatchCounter.add_assign a (AddBatchCounter.add_assign AddBatchCounter.default c)
  = AddBatchCounter.add_assign a c.
Proof.
  unfold AddBatchCounter.add_assign, int64_add; cbn.
  f_equal; by rewrite wrap_add_r by lia.
Qed.

Section AddBatchCounterSums.
Import AddBatchCounter AddBatchCounterSum.

(** X1: counters added up with [+=] give the same sum in whatever order they
    are taken. *)
Theorem AddBatchCounter_sum_any_order (c : t) (l l' : list t) :
  l ≡ₚ l' -> sum c l = sum c l'.
Proof.
  intros Hperm. unfold sum.
  apply (foldl_comm_permutation add_assign); [| done].
  intros b x y. apply add_assign_swap.
Qed.

Lemma AddBatchCounter_sum_any_order_witness :
  [Samples.counter_a; Samples.counter_b; Samples.counter_c]
    ≡ₚ [Samples.counter_c; Samples.counter_a; Samples.counter_b] /\
  sum default [Samples.counter_a; Samples.counter_b; Samples.counter_c]
  = sum default [Samples.counter_c; Samples.counter_a; Samples.counter_b].
Proof.
  assert (H : [Samples.counter_a; Samples.counter_b; Samples.counter_c]
                ≡ₚ [Samples.counter_c; Samples.counter_a; Samples.counter_b]).
  { symmetry. apply (Permutation_cons_append [Samples.counter_a; Samples.counter_b] Samples.counter_c). }
  exact (conj H (AddBatchCounter_sum_any_order default _ _ H)).
Defined.

Lemma sum_field (c : t) (l : list t) :
  sum c l =
  mk (fold_left (fun acc x => int64_add acc (add_batch_execution_time_us x)) l
        (add_batch_execution_time_us c))
     (fold_left (fun acc x => int64_add acc (add_batch_wait_lock_time_us x)) l
        (add_batch_wait_lock_time_us c))
     (fold_left (fun acc x => int64_add acc (add_batch_num x)) l (add_batch_num c)).
Proof.
  unfold sum. revert c. induction l as [| x l IH]; intros c; cbn.
  - by destruct c.
  - by rewrite IH.
Qed.

Lemma fold_int64_add_total (field : t -> Z) (l : list t) (z : Z) :
  is_int64 z ->
  fold_left (fun acc x => int64_add acc (field x)) l z = wrap 64 (z + total field l).
Proof.
  revert z. induction l as [| x l IH]; intros z Hz; cbn.
  - rewrite Z.add_0_r. symmetry. apply wrap_id; [lia | exact Hz].
  - rewrite IH by apply int64_add_is_int64.
    change (foldr _ 0 l) with (total field l).
    unfold int64_add. rewrite wrap_add_l by lia. f_equal. lia.
Qed.

(** X2: a sum of counters holds, in each field, the true total of that field
    brought into the 64-bit range; when the three true totals are in that
    range the fields are exactly the totals. *)
Theorem AddBatchCounter_sum_total (c : t) (l : list t) :
  wf c ->
  let e := add_batch_execution_time_us c + total add_batch_execution_time_us l in
  let w := add_batch_wait_lock_time_us c + total add_batch_wait_lock_time_us l in
  let n := add_batch_num c + total add_batch_num l in
  sum c l = mk (wrap 64 e) (wrap 64 w) (wrap 64 n) /\
  (is_int64 e -> is_int64 w -> is_int64 n -> sum c l = mk e w n).
Proof.
  intros (H1 & H2 & H3) e w n.
  assert (Hsum : sum c l = mk (wrap 64 e) (wrap 64 w) (wrap 64 n)).
  { rewrite sum_field. f_equal; by apply fold_int64_add_total. }
  split; [exact Hsum |].
  intros He Hw Hn. rewrite Hsum. f_equal; by apply wrap_id.
Qed.

Lemma AddBatchCounter_sum_total_witness :
  wf Samples.counter_a /\
  sum Samples.counter_a [Samples.counter_b; Samples.counter_c] = mk 2240 25 6.
Proof.
  assert (H : wf Samples.counter_a) by (unfold wf, is_int64, in_range; cbn; lia).
  split; [exact H |].
  apply (proj2 (AddBatchCounter_sum_total Samples.counter_a
                  [Samples.counter_b; Samples.counter_c] H));
    unfold is_int64, in_range; cbn; lia.
Defined.

End AddBatchCounterSums.

(** ** time_report *)

Section TimeReportFacts.
Import TimeReport.

Lemma add_at_lookup (key j : Z) (c : AddBatchCounter.t) (m : gmap Z AddBatchCounter.t) :
  add_at key c m !! j =
  if decide (key = j)
  then Some (AddBatchCounter.add_assign (default AddBatchCounter.default (m !! key)) c)
  else m !! j.
Proof. unfold add_at. apply lookup_insert. Qed.

Lemma add_at_comm (k1 k2 : Z) (c1 c2 : AddBatchCounter.t) (m : gmap Z AddBatchCounter.t) :
  add_at k1 c1 (add_at k2 c2 m) = add_at k2 c2 (add_at k1 c1 m).
Proof.
  apply map_eq. intros j. rewrite !add_at_lookup.
  destruct (decide (k1 = k2)) as [-> | Hne].
  - case_decide; [| done]. rewrite !decide_True by done. cbn.
    f_equal. apply add_assign_swap.
  - repeat case_decide; subst; try done; congruence.
Qed.

(** What the loop over items with distinct keys leaves at a key. *)
Lemma add_items_lookup (items : list (Z * AddBatchCounter.t))
    (m : gmap Z AddBatchCounter.t) (j : Z) :
  NoDup items.*1 ->
  IndexChannelTimes.add_items items m !! j =
  match (list_to_map items : gmap Z AddBatchCounter.t) !! j with
  | Some c => Some (AddBatchCounter.add_assign (default AddBatchCounter.default (m !! j)) c)
  | None => m !! j
  end.
Proof.
  unfold IndexChannelTimes.add_items. revert m.
  induction items as [| [k c] rest IH]; intros m Hnd; [done |].
  rewrite fmap_cons in Hnd. apply NoDup_cons in Hnd as [Hk Hnd].
  cbn [foldl fst snd]. rewrite (IH _ Hnd), add_at_lookup, list_to_map_cons.
  destruct (decide (k = j)) as [-> | Hne].
  - rewrite lookup_insert_eq.
    by rewrite (not_elem_of_list_to_map_1 rest j Hk).
  - by rewrite lookup_insert_ne.
Qed.

Lemma int64_add_swap (x a b : Z) :
  int64_add (int64_add x a) b = int64_add (int64_add x b) a.
Proof. rewrite !int64_add_assoc. f_equal. apply int64_add_comm. Qed.

Lemma node_time_report_comm (a b : NodeChannelTimes.t) (r : t) :
  NodeChannelTimes.time_report a (NodeChannelTimes.time_report b r)
  = NodeChannelTimes.time_report b (NodeChannelTimes.time_report a r).
Proof.
  unfold NodeChannelTimes.time_report; cbn.
  f_equal; [apply int64_add_swap | apply int64_add_swap | apply add_at_comm].
Qed.

Lemma index_time_report_lookup (idx : IndexChannelTimes.t) (r : t) (j : Z) :
  add_batch_counter_map (IndexChannelTimes.time_report idx r) !! j =
  match IndexChannelTimes._add_batch_counter_map idx !! j with
  | Some c =>
      Some (AddBatchCounter.add_assign
              (default AddBatchCounter.default (add_batch_counter_map r !! j)) c)
  | None => add_batch_counter_map r !! j
  end.
Proof.
  unfold IndexChannelTimes.time_report, IndexChannelTimes.time_report_in; cbn.
  rewrite add_items_lookup by apply NoDup_fst_map_to_list.
  by rewrite list_to_map_to_list.
Qed.

(** An index channel into which a node channel has reported reports what
    the index channel did before, and then the node channel. *)
Lemma index_time_report_step (ch : NodeChannelTimes.t) (acc r : t) :
  let of_report := fun a : t =>
    IndexChannelTimes.mk (serialize_batch_ns a) (wait_in_flight_packet_ns a)
                         (add_batch_counter_map a) in
  IndexChannelTimes.time_report (of_report (NodeChannelTimes.time_report ch acc)) r
  = NodeChannelTimes.time_report ch (IndexChannelTimes.time_report (of_report acc) r).
Proof.
  cbn zeta.
  set (lhs := IndexChannelTimes.time_report _ r).
  set (rhs := NodeChannelTimes.time_report ch _).
  assert (H1 : serialize_batch_ns lhs = serialize_batch_ns rhs)
    by (symmetry; apply int64_add_assoc).
  assert (H2 : wait_in_flight_packet_ns lhs = wait_in_flight_packet_ns rhs)
    by (symmetry; apply int64_add_assoc).
  assert (H3 : add_batch_counter_map lhs = add_batch_counter_map rhs).
  { apply map_eq. intros j. subst lhs rhs.
    rewrite index_time_report_lookup.
    cbn [NodeChannelTimes.time_report add_batch_counter_map
         IndexChannelTimes._add_batch_counter_map].
    rewrite !add_at_lookup.
    destruct (decide (NodeChannelTimes._node_id ch = j)) as [<- | Hne];
      rewrite index_time_report_lookup;
      cbn [IndexChannelTimes._add_batch_counter_map]; [| done].
    destruct (add_batch_counter_map acc !! NodeChannelTimes._node_id ch) as [a |]; cbn.
    - by rewrite add_assign_assoc.
    - by rewrite add_assign_default_absorb. }
  destruct lhs, rhs; cbn in *. by subst.
Qed.

Lemma index_time_report_collect (chs : list NodeChannelTimes.t) (acc r : t) :
  let of_report := fun a : t =>
    IndexChannelTimes.mk (serialize_batch_ns a) (wait_in_flight_packet_ns a)
                         (add_batch_counter_map a) in
  IndexChannelTimes.time_report (of_report (NodeChannelTimes.report_all chs acc)) r
  = NodeChannelTimes.report_all chs (IndexChannelTimes.time_report (of_report acc) r).
Proof.
  cbn zeta. revert acc. induction chs as [| ch rest IH]; intros acc; [done |].
  unfold NodeChannelTimes.report_all in *. cbn [foldl].
  rewrite IH. f_equal. apply index_time_report_step.
Qed.

(** X3: [NodeChannel::time_report] adds the counter of the channel under the
    node id of the channel, and only there: a node that had no entry gets the
    counter of the channel as its entry, a node that had one gets the sum, and
    the entries of the other nodes stay as they are. *)
Theorem NodeChannel_time_report_entry (ch : NodeChannelTimes.t) (r : t) :
  AddBatchCounter.wf (NodeChannelTimes._add_batch_counter ch) ->
  let node := NodeChannelTimes._node_id ch in
  let m := add_batch_counter_map r in
  let m' := add_batch_counter_map (NodeChannelTimes.time_report ch r) in
  (m !! node = None -> m' !! node = Some (NodeChannelTimes._add_batch_counter ch)) /\
  (forall c0, m !! node = Some c0 ->
     m' !! node = Some (AddBatchCounter.add c0 (NodeChannelTimes._add_batch_counter ch))) /\
  (forall j, j <> node -> m' !! j = m !! j) /\
  dom m' = {[ node ]} ∪ dom m.
Proof.
  intros Hwf node m m'. subst m'. unfold NodeChannelTimes.time_report; cbn.
  fold node m. split; [| split; [| split]].
  - intros Hnone. rewrite add_at_lookup, decide_True, Hnone by done. cbn.
    f_equal. rewrite add_assign_comm. by apply add_assign_default_r.
  - intros c0 Hc0. by rewrite add_at_lookup, decide_True, Hc0.
  - intros j Hj. by rewrite add_at_lookup, decide_False.
  - unfold add_at. apply dom_insert_L.
Qed.

Lemma NodeChannel_time_report_entry_witness :
  let ch := NodeChannelTimes.mk 10002 11 7 Samples.counter_a in
  let r' := NodeChannelTimes.time_report ch Samples.report in
  AddBatchCounter.wf (NodeChannelTimes._add_batch_counter ch) /\
  add_batch_counter_map r' !! 10002 = Some Samples.counter_a /\
  add_batch_counter_map r' !! 10003 = Some Samples.counter_c.
Proof.
  intros ch r'.
  assert (H : AddBatchCounter.wf (NodeChannelTimes._add_batch_counter ch))
    by (unfold AddBatchCounter.wf, is_int64, in_range; cbn; lia).
  destruct (NodeChannel_time_report_entry ch Samples.report H) as (Hnew & _ & Hother & _).
  split; [exact H |]. split.
  - apply Hnew. vm_compute. reflexivity.
  - rewrite Hother by (vm_compute; discriminate). vm_compute. reflexivity.
Defined.

(** X4: node channels that report into the same two times and the same map
    leave the same result in whatever order they report. *)
Theorem NodeChannel_time_report_any_order (chs chs' : list NodeChannelTimes.t) (r : t) :
  chs ≡ₚ chs' ->
  NodeChannelTimes.report_all chs r = NodeChannelTimes.report_all chs' r.
Proof.
  intros Hperm. unfold NodeChannelTimes.report_all.
  apply (foldl_comm_permutation (fun acc ch => NodeChannelTimes.time_report ch acc));
    [| done].
  intros b x y. apply node_time_report_comm.
Qed.

Lemma NodeChannel_time_report_any_order_witness :
  Samples.channels ≡ₚ reverse Samples.channels /\
  NodeChannelTimes.report_all Samples.channels Samples.report
  = NodeChannelTimes.report_all (reverse Samples.channels) Samples.report.
Proof.
  assert (H : Samples.channels ≡ₚ reverse Samples.channels)
    by (symmetry; apply reverse_Permutation).
  exact (conj H (NodeChannel_time_report_any_order _ _ Samples.report H)).
Defined.

(** X5: [IndexChannel::time_report] merges the map of the index channel into
    the map of the caller: a node of the index channel gets its counter added
    to the entry of the caller, or to a fresh one when the caller has none,
    the other entries of the caller stay as they are, and the nodes of the
    result are those of the caller and those of the index channel.  With an
    empty map in the index channel the map of the caller is unchanged. *)
Theorem IndexChannel_time_report_merge (idx : IndexChannelTimes.t) (r : t) :
  let own := IndexChannelTimes._add_batch_counter_map idx in
  let m := add_batch_counter_map r in
  let m' := add_batch_counter_map (IndexChannelTimes.time_report idx r) in
  (forall j c, own !! j = Some c ->
     m' !! j = Some (AddBatchCounter.add_assign
                       (default AddBatchCounter.default (m !! j)) c)) /\
  (forall j, own !! j = None -> m' !! j = m !! j) /\
  dom m' = dom m ∪ dom own /\
  (own = ∅ -> m' = m).
Proof.
  intros own m m'. subst m'.
  assert (Hsome : forall j c, own !! j = Some c ->
            add_batch_counter_map (IndexChannelTimes.time_report idx r) !! j
            = Some (AddBatchCounter.add_assign
                      (default AddBatchCounter.default (m !! j)) c)).
  { intros j c Hj. rewrite index_time_report_lookup. fold own. by rewrite Hj. }
  assert (Hnone : forall j, own !! j = None ->
            add_batch_counter_map (IndexChannelTimes.time_report idx r) !! j = m !! j).
  { intros j Hj. rewrite index_time_report_lookup. fold own. by rewrite Hj. }
  split; [exact Hsome |]. split; [exact Hnone |]. split.
  - apply set_eq. intros j. rewrite elem_of_union, !elem_of_dom.
    destruct (own !! j) as [c |] eqn:Hj.
    + rewrite (Hsome j c Hj). split; [intros _; right | intros _]; by eexists.
    + rewrite (Hnone j Hj). split; [by left | intros [H | [c Hc]]; [done | done]].
  - intros Hempty. apply map_eq. intros j. apply Hnone. by rewrite Hempty.
Qed.

(** X6: the result of [IndexChannel::time_report] does not depend on the
    order in which the loop visits the items of the unordered map. *)
Theorem IndexChannel_time_report_any_order
    (items : list (Z * AddBatchCounter.t)) (idx : IndexChannelTimes.t) (r : t) :
  items ≡ₚ map_to_list (IndexChannelTimes._add_batch_counter_map idx) ->
  IndexChannelTimes.time_report_in items idx r = IndexChannelTimes.time_report idx r.
Proof.
  intros Hperm. unfold IndexChannelTimes.time_report, IndexChannelTimes.time_report_in.
  f_equal. unfold IndexChannelTimes.add_items.
  apply (foldl_comm_permutation (fun acc item => add_at item.1 item.2 acc)); [| done].
  intros b x y. apply add_at_comm.
Qed.

Lemma IndexChannel_time_report_any_order_witness :
  let idx := IndexChannelTimes.collect Samples.channels in
  let items := reverse (map_to_list (IndexChannelTimes._add_batch_counter_map idx)) in
  items ≡ₚ map_to_list (IndexChannelTimes._add_batch_counter_map idx) /\
  IndexChannelTimes.time_report_in items idx Samples.report
  = IndexChannelTimes.time_report idx Samples.report.
Proof.
  intros idx items.
  assert (H : items ≡ₚ map_to_list (IndexChannelTimes._add_batch_counter_map idx))
    by apply reverse_Permutation.
  exact (conj H (IndexChannel_time_report_any_order items idx Samples.report H)).
Defined.

(** X7: reporting in two levels is reporting in one: when node channels
    report into the members of an index channel that start at their
    defaults, and the index channel then reports to a caller, the caller has
    what it would have had the node channels reported to it directly. *)
Theorem time_report_two_levels (chs : list NodeChannelTimes.t) (r : t) :
  is_int64 (serialize_batch_ns r) -> is_int64 (wait_in_flight_packet_ns r) ->
  IndexChannelTimes.time_report (IndexChannelTimes.collect chs) r
  = NodeChannelTimes.report_all chs r.
Proof.
  intros Hs Hw. unfold IndexChannelTimes.collect.
  rewrite (index_time_report_collect chs). f_equal.
  unfold IndexChannelTimes.time_report, IndexChannelTimes.time_report_in; cbn.
  rewrite map_to_list_empty. cbn.
  rewrite !int64_add_0_r by done. by destruct r.
Qed.

Lemma time_report_two_levels_witness :
  is_int64 (serialize_batch_ns Samples.report) /\
  is_int64 (wait_in_flight_packet_ns Samples.report) /\
  IndexChannelTimes.time_report (IndexChannelTimes.collect Samples.channels) Samples.report
  = NodeChannelTimes.report_all Samples.channels Samples.report /\
  add_batch_counter_map (NodeChannelTimes.report_all Samples.channels Samples.report)
    !! 10002 = Some (AddBatchCounter.mk 1540 20 5).
Proof.
  assert (Hs : is_int64 (serialize_batch_ns Samples.report))
    by (unfold is_int64, in_range; cbn; lia).
  assert (Hw : is_int64 (wait_in_flight_packet_ns Samples.report))
    by (unfold is_int64, in_range; cbn; lia).
  split; [exact Hs |]. split; [exact Hw |].
  split; [exact (time_report_two_levels Samples.channels Samples.report Hs Hw) |].
  vm_compute. reflexivity.
Defined.

Lemma report_all_lookup (chs : list NodeChannelTimes.t) (r : t) (n : Z) :
  add_batch_counter_map (NodeChannelTimes.report_all chs r) !! n =
  match map NodeChannelTimes._add_batch_counter
          (List.filter (fun ch => NodeChannelTimes._node_id ch =? n) chs) with
  | [] => add_batch_counter_map r !! n
  | c :: l =>
      Some (AddBatchCounterSum.sum
              (default AddBatchCounter.default (add_batch_counter_map r !! n)) (c :: l))
  end.
Proof.
  unfold NodeChannelTimes.report_all. revert r.
  induction chs as [| ch rest IH]; intros r; [done |].
  cbn [foldl List.filter]. rewrite IH.
  cbn [NodeChannelTimes.time_report add_batch_counter_map]. rewrite add_at_lookup.
  destruct (Z.eqb_spec (NodeChannelTimes._node_id ch) n) as [Heq | Hne].
  - rewrite decide_True by done. rewrite Heq. cbn [map default].
    by destruct (map _ (List.filter _ rest)).
  - by rewrite decide_False.
Qed.

Lemma report_all_times (chs : list NodeChannelTimes.t) (r : t) :
  is_int64 (serialize_batch_ns r) -> is_int64 (wait_in_flight_packet_ns r) ->
  serialize_batch_ns (NodeChannelTimes.report_all chs r)
  = wrap 64 (serialize_batch_ns r
             + foldr (fun ch acc => NodeChannelTimes._serialize_batch_ns ch + acc) 0 chs) /\
  wait_in_flight_packet_ns (NodeChannelTimes.report_all chs r)
  = wrap 64 (wait_in_flight_packet_ns r
             + foldr (fun ch acc => NodeChannelTimes._wait_in_flight_packet_ns ch + acc) 0 chs).
Proof.
  unfold NodeChannelTimes.report_all. revert r.
  induction chs as [| ch rest IH]; intros r Hs Hw.
  - cbn. rewrite !Z.add_0_r. by rewrite !wrap_id by (lia || done).
  - cbn [foldl foldr].
    destruct (IH (NodeChannelTimes.time_report ch r)) as [-> ->];
      try apply int64_add_is_int64.
    cbn [NodeChannelTimes.time_report serialize_batch_ns wait_in_flight_packet_ns].
    unfold int64_add. rewrite !wrap_add_l by lia. split; f_equal; lia.
Qed.

(** X9: after any number of node channels have reported, the entry of a node
    is the entry that the caller had for it plus the counters of exactly the
    channels of that node, added in the order of the reports; a node with no
    channel among them keeps the entry it had, or none.  The two times are
    the true totals brought into the 64-bit range. *)
Theorem NodeChannel_time_report_per_node (chs : list NodeChannelTimes.t) (r : t) (n : Z) :
  let mine := map NodeChannelTimes._add_batch_counter
                (List.filter (fun ch => NodeChannelTimes._node_id ch =? n) chs) in
  let r' := NodeChannelTimes.report_all chs r in
  (mine = [] -> add_batch_counter_map r' !! n = add_batch_counter_map r !! n) /\
  (mine <> [] ->
   add_batch_counter_map r' !! n
   = Some (AddBatchCounterSum.sum
             (default AddBatchCounter.default (add_batch_counter_map r !! n)) mine)) /\
  (is_int64 (serialize_batch_ns r) -> is_int64 (wait_in_flight_packet_ns r) ->
   serialize_batch_ns r'
   = wrap 64 (serialize_batch_ns r
              + foldr (fun ch acc => NodeChannelTimes._serialize_batch_ns ch + acc) 0 chs) /\
   wait_in_flight_packet_ns r'
   = wrap 64 (wait_in_flight_packet_ns r
              + foldr (fun ch acc => NodeChannelTimes._wait_in_flight_packet_ns ch + acc) 0 chs)).
Proof.
  intros mine r'. subst r'. pose proof (report_all_lookup chs r n) as Hl.
  fold mine in Hl. split; [| split].
  - intros Hnil. by rewrite Hnil in Hl.
  - intros Hne. by destruct mine.
  - apply report_all_times.
Qed.

Lemma NodeChannel_time_report_per_node_witness :
  let r' := NodeChannelTimes.report_all Samples.channels Samples.report in
  add_batch_counter_map r' !! 10002
  = Some (AddBatchCounterSum.sum AddBatchCounter.default
            [Samples.counter_a; Samples.counter_c]) /\
  add_batch_counter_map r' !! 10003
  = Some (AddBatchCounterSum.sum Samples.counter_c [Samples.counter_b]) /\
  add_batch_counter_map r' !! 10004 = None /\
  serialize_batch_ns r' = 118.
Proof.
  cbn zeta.
  destruct (NodeChannel_time_report_per_node Samples.channels Samples.report 10002)
    as (_ & H2 & _).
  destruct (NodeChannel_time_report_per_node Samples.channels Samples.report 10003)
    as (_ & H3 & _).
  destruct (NodeChannel_time_report_per_node Samples.channels Samples.report 10004)
    as (H4 & _ & Ht).
  split; [apply H2; vm_compute; discriminate |].
  split; [apply H3; vm_compute; discriminate |].
  split; [rewrite H4 by (vm_compute; reflexivity); vm_compute; reflexivity |].
  rewrite (proj1 (Ht ltac:(unfold is_int64, in_range; cbn; lia)
                     ltac:(unfold is_int64, in_range; cbn; lia))).
  vm_compute. reflexivity.
Defined.

End TimeReportFacts.

(** ** The hash of a key *)

(** X8: [TabletsChannelKeyHasher] agrees with [operator==]: when the hash of
    the id agrees with the [==] of the id, two keys that compare equal have
    the same hash, whatever the hash of the index id is. *)
Theorem TabletsChannelKeyHasher_respects_eq {UniqueId : Type}
    (uid_eq : UniqueId -> UniqueId -> bool) (uid_hash : UniqueId -> Z)
    (hash_int64 : Z -> Z -> Z) (k1 k2 : TabletsChannelKey.t UniqueId) :
  (forall a b, uid_eq a b = true -> uid_hash a = uid_hash b) ->
  TabletsChannelKey.eq uid_eq k1 k2 = true ->
  TabletsChannelKey.hasher uid_hash hash_int64 k1
  = TabletsChannelKey.hasher uid_hash hash_int64 k2.
Proof.
  intros Hhash Heq. unfold TabletsChannelKey.eq in Heq.
  apply andb_true_iff in Heq as [Hi Hu]. apply Z.eqb_eq in Hi.
  unfold TabletsChannelKey.hasher. by rewrite Hi, (Hhash _ _ Hu).
Qed.

Lemma TabletsChannelKeyHasher_respects_eq_witness :
  let k1 := TabletsChannelKey.mk (UniqueId.mk 7 9) 10001 in
  let k2 := TabletsChannelKey.mk (UniqueId.mk 7 9) 10001 in
  (forall a b, UniqueId.eq a b = true -> Samples.uid_hash a = Samples.uid_hash b) /\
  TabletsChannelKey.eq UniqueId.eq k1 k2 = true /\
  TabletsChannelKey.hasher Samples.uid_hash Samples.hash_int64 k1
  = TabletsChannelKey.hasher Samples.uid_hash Samples.hash_int64 k2.
Proof.
  intros k1 k2.
  assert (H1 : forall a b, UniqueId.eq a b = true -> Samples.uid_hash a = Samples.uid_hash b).
  { intros a b Hab. apply UniqueId_eq_spec in Hab. by subst. }
  assert (H2 : TabletsChannelKey.eq UniqueId.eq k1 k2 = true) by reflexivity.
  exact (conj H1 (conj H2
    (TabletsChannelKeyHasher_respects_eq UniqueId.eq Samples.uid_hash
       Samples.hash_int64 k1 k2 H1 H2))).
Defined.

(** ** The rows that a node channel sends *)

Section NodeChannelRows.
Import NodeChannel.

Lemma zip_map_fst_snd (l : list (Tuple * Z)) : zip (map fst l) (map snd l) = l.
Proof. induction l as [| [a b] l IH]; cbn; [done | by rewrite IH]. Qed.

Lemma rows_of_snoc (wire : list AddBatchRequest) (req : AddBatchRequest) :
  Wire.rows_of (wire ++ [req])
  = Wire.rows_of wire ++ zip (req_rows req) (req_tablet_ids req).
Proof. unfold Wire.rows_of. rewrite flat_map_app. cbn. by rewrite app_nil_r. Qed.

(** A send that returns OK moves the batch, as it is, to the wire. *)
Lemma send_cur_batch_moves (eos : bool) (ch ch' : t) :
  _send_cur_batch eos ch = (OK, ch') ->
  exists req, wire ch' = wire ch ++ [req] /\
    zip (req_rows req) (req_tablet_ids req) = _batch ch /\
    length (req_rows req) = length (_batch ch) /\
    req_eos req = eos /\
    _batch ch' = [] /\ _batch_capacity ch' = _batch_capacity ch.
Proof.
  intros Hsend. pose proof (send_cur_batch_cases eos ch) as Hc. rewrite Hsend in Hc.
  destruct Hc as [[(e & [=] & _) | (_ & req & Hw & _ & He & _ & _ & Hr & Ht & _ & _ & Hb)]
                    (_ & _ & Hcap)].
  exists req. rewrite Hr, Ht, zip_map_fst_snd, length_map. done.
Qed.

(** What has been handed to a channel is on the wire or in the batch, in
    the order in which it was handed over. *)
Lemma add_row_keeps_rows (tuple : Tuple) (tablet_id : Z) (ch ch' : t) :
  add_row tuple tablet_id ch = (OK, ch') ->
  Wire.rows_of (wire ch') ++ _batch ch'
  = Wire.rows_of (wire ch) ++ _batch ch ++ [(tuple, tablet_id)].
Proof.
  unfold add_row. destruct (_ <=? _)%nat.
  - intros (req & Hw & Hz & _ & _ & Hb & _)%send_cur_batch_moves.
    rewrite Hw, Hb, rows_of_snoc, Hz. cbn. by rewrite app_nil_r.
  - by intros [= <-].
Qed.

Lemma add_rows_keeps_rows (rows : list (Tuple * Z)) (ch ch' : t) :
  add_rows rows ch = (OK, ch') ->
  Wire.rows_of (wire ch') ++ _batch ch' = Wire.rows_of (wire ch) ++ _batch ch ++ rows.
Proof.
  revert ch. induction rows as [| [tuple tablet_id] rest IH]; intros ch; cbn.
  - intros [= <-]. by rewrite app_nil_r.
  - destruct (add_row tuple tablet_id ch) as [st ch1] eqn:Hadd.
    destruct st; [| discriminate]. intros Hrest.
    rewrite (IH _ Hrest), app_assoc, (add_row_keeps_rows _ _ _ _ Hadd).
    by rewrite <- !app_assoc.
Qed.

Lemma init_empty nodes_info timeout batch_size ch ch' :
  init nodes_info timeout batch_size ch = (OK, ch') ->
  _batch ch' = [] /\ _batch_capacity ch' = batch_size /\ wire ch' = wire ch.
Proof.
  unfold init. destruct (nodes_info !! _); [| discriminate]. by intros [= <-].
Qed.

(** In the send protocol of a node channel, a session that ends OK has
    put on the wire exactly the rows that were added, each with its tablet
    id, in the order of the [add_row] calls: no row is lost, none is sent
    twice, and nothing is left in the batch. *)
Theorem NodeChannel_rows_delivered
    (sender_id index_id node_id schema_hash : Z)
    (nodes_info : gmap Z Backend) (timeout : option Z) (batch_size : nat)
    (rows : list (Tuple * Z)) (ch0 ch : t) :
  init nodes_info timeout batch_size (new sender_id index_id node_id schema_hash)
    = (OK, ch0) ->
  session rows ch0 = (OK, ch) ->
  Wire.rows_of (wire ch) = rows /\ _batch ch = [].
Proof.
  intros (Hb0 & _ & Hw0)%init_empty Hsession. cbn in Hw0.
  unfold session in Hsession.
  destruct (add_rows rows ch0) as [st ch1] eqn:Hadd. destruct st; [| discriminate].
  apply add_rows_keeps_rows in Hadd. rewrite Hw0, Hb0 in Hadd. cbn in Hadd.
  apply send_cur_batch_moves in Hsession as (req & Hw & Hz & _ & _ & Hb & _).
  split; [| done]. by rewrite Hw, rows_of_snoc, Hz.
Qed.

Lemma NodeChannel_rows_delivered_witness :
  let nodes_info : gmap Z Backend := {[ 10002 := always_ok ]} in
  let rows := [([DNumber 1], 501); ([DNumber 2], 502); ([DNumber 3], 501);
               ([DNumber 4], 501); ([DNumber 5], 502)] in
  let ch0 := (init nodes_info None 2 (new 0 1 10002 77)).2 in
  let ch := (session rows ch0).2 in
  init nodes_info None 2 (new 0 1 10002 77) = (OK, ch0) /\
  session rows ch0 = (OK, ch) /\
  Wire.rows_of (wire ch) = rows.
Proof.
  intros nodes_info rows ch0 ch.
  assert (H1 : init nodes_info None 2 (new 0 1 10002 77) = (OK, ch0))
    by (vm_compute; reflexivity).
  assert (H2 : session rows ch0 = (OK, ch)) by (vm_compute; reflexivity).
  exact (conj H1 (conj H2
    (proj1 (NodeChannel_rows_delivered 0 1 10002 77 nodes_info None 2 rows ch0 ch H1 H2)))).
Defined.

(** Between two calls the batch is below its capacity, and every packet on
    the wire is a full batch. *)
Lemma add_row_full_packets (c n : nat) (tuple : Tuple) (tablet_id : Z) (ch ch' : t) :
  add_row tuple tablet_id ch = (OK, ch') ->
  _batch_capacity ch = c -> (length (_batch ch) < c)%nat ->
  Forall (fun r => length (req_rows r) = c /\ req_eos r = false) (wire ch) ->
  (length (wire ch) * c + length (_batch ch) = n)%nat ->
  _batch_capacity ch' = c /\ (length (_batch ch') < c)%nat /\
  Forall (fun r => length (req_rows r) = c /\ req_eos r = false) (wire ch') /\
  (length (wire ch') * c + length (_batch ch') = S n)%nat.
Proof.
  unfold add_row. intros Hadd Hcap Hlen Hall Hn. cbn [_batch_capacity with_batch] in Hadd.
  change (_batch (with_batch ?b ch)) with b in Hadd.
  rewrite Hcap, length_app in Hadd. cbn [length] in Hadd.
  destruct (Nat.leb_spec c (length (_batch ch) + 1)) as [Hfull | Hroom].
  - apply send_cur_batch_moves in Hadd as (req & Hw & _ & Hl & He & Hb & Hc).
    cbn in Hl, Hc. rewrite length_app in Hl. cbn in Hl.
    rewrite Hw, Hb, Hc, Hcap, length_app. cbn.
    split; [done |]. split; [lia |]. split; [| lia].
    apply Forall_app. split; [done |]. repeat constructor; [lia | done].
  - injection Hadd as <-. cbn. rewrite length_app. cbn.
    split; [done |]. split; [lia |]. split; [done | lia].
Qed.

Lemma add_rows_full_packets (c : nat) (rows : list (Tuple * Z)) (n : nat) (ch ch' : t) :
  add_rows rows ch = (OK, ch') ->
  _batch_capacity ch = c -> (length (_batch ch) < c)%nat ->
  Forall (fun r => length (req_rows r) = c /\ req_eos r = false) (wire ch) ->
  (length (wire ch) * c + length (_batch ch) = n)%nat ->
  _batch_capacity ch' = c /\ (length (_batch ch') < c)%nat /\
  Forall (fun r => length (req_rows r) = c /\ req_eos r = false) (wire ch') /\
  (length (wire ch') * c + length (_batch ch') = n + length rows)%nat.
Proof.
  revert n ch. induction rows as [| [tuple tablet_id] rest IH]; intros n ch; cbn.
  - intros [= <-] Hcap Hlen Hall Hn. rewrite Nat.add_0_r. done.
  - destruct (add_row tuple tablet_id ch) as [st ch1] eqn:Hadd.
    destruct st; [| discriminate]. intros Hrest Hcap Hlen Hall Hn.
    destruct (add_row_full_packets c n _ _ _ _ Hadd Hcap Hlen Hall Hn)
      as (Hcap1 & Hlen1 & Hall1 & Hn1).
    destruct (IH (S n) ch1 Hrest Hcap1 Hlen1 Hall1 Hn1) as (? & ? & ? & Hn').
    repeat split; try done. lia.
Qed.

(** In the send protocol of a node channel with a batch capacity of at
    least one row, a session that ends OK sends its rows in full batches
    followed by one last packet: with [n] rows and capacity [c] there are
    [n / c] packets of exactly [c] rows without [eos], and then the packet
    with [eos], which carries the [n mod c] rows that remain. *)
Theorem NodeChannel_packet_sizes
    (sender_id index_id node_id schema_hash : Z)
    (nodes_info : gmap Z Backend) (timeout : option Z) (batch_size : nat)
    (rows : list (Tuple * Z)) (ch0 ch : t) :
  init nodes_info timeout batch_size (new sender_id index_id node_id schema_hash)
    = (OK, ch0) ->
  (1 <= batch_size)%nat ->
  session rows ch0 = (OK, ch) ->
  exists (full : list AddBatchRequest) (last : AddBatchRequest),
    wire ch = full ++ [last] /\
    Forall (fun r => length (req_rows r) = batch_size /\ req_eos r = false) full /\
    length full = (length rows / batch_size)%nat /\
    length (req_rows last) = (length rows mod batch_size)%nat /\
    req_eos last = true.
Proof.
  intros (Hb0 & Hc0 & Hw0)%init_empty Hcap Hsession. cbn in Hw0.
  unfold session in Hsession.
  destruct (add_rows rows ch0) as [st ch1] eqn:Hadd. destruct st; [| discriminate].
  destruct (add_rows_full_packets batch_size rows 0 ch0 ch1 Hadd Hc0)
    as (_ & Hlen1 & Hall1 & Hn1).
  { rewrite Hb0. cbn. lia. }
  { rewrite Hw0. constructor. }
  { by rewrite Hw0, Hb0. }
  apply send_cur_batch_moves in Hsession as (last & Hw & _ & Hl & He & _ & _).
  exists (wire ch1), last. split; [done |]. split; [done |].
  rewrite Hl. cbn in Hn1.
  assert (Hdiv : length rows = (batch_size * length (wire ch1) + length (_batch ch1))%nat)
    by lia.
  split; [| split; [| done]].
  - by apply (Nat.div_unique _ _ _ (length (_batch ch1))).
  - by apply (Nat.mod_unique _ _ (length (wire ch1))).
Qed.

Lemma NodeChannel_packet_sizes_witness :
  let nodes_info : gmap Z Backend := {[ 10002 := always_ok ]} in
  let rows := map (fun i => ([DNumber (Z.of_nat i)], 501)) (seq 0 7) in
  let ch0 := (init nodes_info None 3 (new 0 1 10002 77)).2 in
  let ch := (session rows ch0).2 in
  init nodes_info None 3 (new 0 1 10002 77) = (OK, ch0) /\
  (1 <= 3)%nat /\
  session rows ch0 = (OK, ch) /\
  map (fun r => length (req_rows r)) (wire ch) = [3; 3; 1]%nat /\
  exists (full : list AddBatchRequest) (last : AddBatchRequest),
    wire ch = full ++ [last] /\
    Forall (fun r => length (req_rows r) = 3%nat /\ req_eos r = false) full /\
    length full = (length rows / 3)%nat /\
    length (req_rows last) = (length rows mod 3)%nat /\
    req_eos last = true.
Proof.
  intros nodes_info rows ch0 ch.
  assert (H1 : init nodes_info None 3 (new 0 1 10002 77) = (OK, ch0))
    by (vm_compute; reflexivity).
  assert (H2 : (1 <= 3)%nat) by lia.
  assert (H3 : session rows ch0 = (OK, ch)) by (vm_compute; reflexivity).
  split; [exact H1 |]. split; [exact H2 |]. split; [exact H3 |].
  split; [vm_compute; reflexivity |].
  exact (NodeChannel_packet_sizes 0 1 10002 77 nodes_info None 3 rows ch0 ch H1 H2 H3).
Defined.

End NodeChannelRows.

(** ** Failed channels and the quorum *)

Section IndexChannelFailures.
Import IndexChannel.
Variable quorum : Z -> Z.

Lemma handle_failed_node_keeps_failed (n node : Z) (ch : NodeChannel.t) (idx : t) :
  _node_channels idx !! node = Some ch ->
  NodeChannel.already_failed ch = true ->
  _node_channels (handle_failed_node quorum n idx).2 !! node = Some ch.
Proof.
  intros Hch Hfailed.
  pose proof (handle_failed_node_frame quorum n idx) as (_ & _ & Hn).
  cbn zeta in Hn. rewrite Hn, lookup_alter. case_decide as Heq; [| done].
  subst n. rewrite Hch. cbn. f_equal. by apply set_failed_failed.
Qed.

Lemma for_each_live_keeps_failed (f : NodeChannel.t -> Status * NodeChannel.t)
    (nodes : list Z) (node : Z) (ch : NodeChannel.t) (idx : t) :
  _node_channels idx !! node = Some ch ->
  NodeChannel.already_failed ch = true ->
  _node_channels (for_each_live quorum f nodes idx).2 !! node = Some ch.
Proof.
  intros Hch Hfailed. revert idx Hch.
  induction nodes as [| n rest IH]; intros idx Hch; cbn [for_each_live]; [done |].
  destruct (_node_channels idx !! n) as [chn |] eqn:Hn; [| by apply IH].
  destruct (NodeChannel.already_failed chn) eqn:Hlive; [by apply IH |].
  assert (Hne : n <> node) by (intros ->; congruence).
  destruct (f chn) as [st ch1].
  set (idx1 := with_node_channels (<[n := ch1]> (_node_channels idx)) idx).
  assert (Hch1 : _node_channels idx1 !! node = Some ch)
    by (cbn; by rewrite lookup_insert_ne).
  destruct st; [by apply IH |].
  pose proof (handle_failed_node_keeps_failed n node ch idx1 Hch1 Hfailed) as Hch2.
  destruct (handle_failed_node quorum n idx1) as [fatal idx2]. cbn in Hch2.
  destruct fatal; [done | by apply IH].
Qed.

(** Once a node channel is marked failed, the index channel never uses
    it again: [open], [add_row] and [close] leave it exactly as it was, with
    its failure mark, its batch and the packets it had sent. *)
Theorem IndexChannel_failed_channel_untouched
    (node : Z) (ch : NodeChannel.t) (idx : t) (tuple : Tuple) (tablet_id : Z) :
  _node_channels idx !! node = Some ch ->
  NodeChannel.already_failed ch = true ->
  _node_channels (open quorum idx).2 !! node = Some ch /\
  _node_channels (add_row quorum tuple tablet_id idx).2 !! node = Some ch /\
  _node_channels (close quorum idx).2 !! node = Some ch.
Proof.
  intros Hch Hfailed. split; [| split].
  - unfold open. apply for_each_live_keeps_failed; [| done].
    cbn. by rewrite lookup_fmap, Hch.
  - unfold add_row. by apply for_each_live_keeps_failed.
  - unfold close.
    pose proof (for_each_live_keeps_failed NodeChannel.close (all_nodes idx)
                  node ch idx Hch Hfailed) as H1.
    destruct (for_each_live quorum NodeChannel.close (all_nodes idx) idx) as [st idx1].
    cbn in H1. destruct st; [| done].
    by apply for_each_live_keeps_failed.
Qed.

Lemma mark_all_failed_frame (nodes : list Z) (idx : t) :
  _channels_by_tablet (mark_all_failed nodes idx) = _channels_by_tablet idx /\
  _parent_num_repicas (mark_all_failed nodes idx) = _parent_num_repicas idx.
Proof.
  revert idx. induction nodes as [| n rest IH]; intros idx; [done |].
  change (mark_all_failed (n :: rest) idx)
    with (mark_all_failed rest (mark_failed idx n)).
  destruct (IH (mark_failed idx n)) as [-> ->]. done.
Qed.

(** Marking [k] channels costs a tablet at most [k] live replicas. *)
Lemma mark_all_failed_live (nodes : list Z) (idx : t) (replicas : list Z) :
  NoDup replicas ->
  live_replicas idx replicas - Z.of_nat (length nodes)
  <= live_replicas (mark_all_failed nodes idx) replicas.
Proof.
  intros Hnd. revert idx. induction nodes as [| n rest IH]; intros idx; cbn [length].
  - cbn. lia.
  - change (mark_all_failed (n :: rest) idx)
      with (mark_all_failed rest (mark_failed idx n)).
    specialize (IH (mark_failed idx n)).
    pose proof (live_replicas_after_alter n idx (mark_failed idx n) replicas
                  eq_refl Hnd) as Hstep.
    lia.
Qed.

End IndexChannelFailures.

Lemma IndexChannel_failed_channel_untouched_witness :
  let idx := (IndexChannel.handle_failed_node IndexChannel.strict_majority 2
                ThreeReplicas.index).2 in
  exists ch : NodeChannel.t,
    IndexChannel._node_channels idx !! 2 = Some ch /\
    NodeChannel.already_failed ch = true /\
    IndexChannel._node_channels
      (IndexChannel.add_row IndexChannel.strict_majority [DNumber 7] 501 idx).2 !! 2
    = Some ch.
Proof.
  intros idx.
  destruct (IndexChannel._node_channels idx !! 2) as [ch |] eqn:Hch;
    [| vm_compute in Hch; discriminate].
  assert (Hfailed : NodeChannel.already_failed ch = true).
  { vm_compute in Hch. injection Hch as <-. reflexivity. }
  exists ch. split; [reflexivity |]. split; [exact Hfailed |].
  exact (proj1 (proj2 (IndexChannel_failed_channel_untouched
                         IndexChannel.strict_majority 2 ch idx [DNumber 7] 501
                         Hch Hfailed))).
Defined.

Section IndexChannelTolerance.
Import IndexChannel.

(** With the strict majority as quorum, an index whose tablets have
    all [R] replicas on distinct live channels survives the failure of any
    channels that are fewer than half of [R], whichever they are and in
    whatever order they are reported. *)
Theorem IndexChannel_survives_minority (idx : t) (nodes : list Z) :
  (forall tablet_id replicas,
     _channels_by_tablet idx !! tablet_id = Some replicas ->
     NoDup replicas /\ live_replicas idx replicas = _parent_num_repicas idx) ->
  2 * Z.of_nat (length nodes) < _parent_num_repicas idx ->
  (fail_nodes strict_majority nodes idx).1 = false.
Proof.
  intros Hreps Hfew.
  assert (Hall : forall k : nat,
            quorum_ok strict_majority (mark_all_failed (take k nodes) idx) = true).
  { intros k. unfold quorum_ok.
    destruct (mark_all_failed_frame (take k nodes) idx) as [Ht Hr]. rewrite Ht.
    apply forallb_forall. intros [tablet_id replicas] Hin.
    apply list_elem_of_In, elem_of_map_to_list in Hin.
    destruct (Hreps _ _ Hin) as [Hnd Hlive]. cbn.
    unfold has_quorum. rewrite Hr.
    pose proof (mark_all_failed_live (take k nodes) idx replicas Hnd) as Hge.
    rewrite length_take in Hge.
    apply Z.leb_le. unfold strict_majority.
    pose proof (Z.div_mod (_parent_num_repicas idx) 2 ltac:(lia)).
    pose proof (Z.mod_pos_bound (_parent_num_repicas idx) 2 ltac:(lia)).
    lia. }
  apply fail_nodes_verdict; [| exact Hall]. exact (Hall 0%nat).
Qed.

Lemma IndexChannel_survives_minority_witness :
  (forall tablet_id replicas,
     _channels_by_tablet ThreeReplicas.index !! tablet_id = Some replicas ->
     NoDup replicas /\
     live_replicas ThreeReplicas.index replicas = _parent_num_repicas ThreeReplicas.index) /\
  2 * Z.of_nat (length [3]) < _parent_num_repicas ThreeReplicas.index /\
  (fail_nodes strict_majority [3] ThreeReplicas.index).1 = false.
Proof.
  assert (H1 : forall tablet_id replicas,
            _channels_by_tablet ThreeReplicas.index !! tablet_id = Some replicas ->
            NoDup replicas /\
            live_replicas ThreeReplicas.index replicas
            = _parent_num_repicas ThreeReplicas.index).
  { intros tablet_id replicas Hin.
    assert (Hmap : _channels_by_tablet ThreeReplicas.index = {[ 501 := [1; 2; 3] ]})
      by (vm_compute; reflexivity).
    rewrite Hmap in Hin. apply lookup_singleton_Some in Hin as [_ <-].
    split; [| vm_compute; reflexivity].
    apply (bool_decide_unpack _). vm_compute. exact I. }
  assert (H2 : 2 * Z.of_nat (length [3]) < _parent_num_repicas ThreeReplicas.index)
    by (vm_compute; reflexivity).
  exact (conj H1 (conj H2 (IndexChannel_survives_minority ThreeReplicas.index [3] H1 H2))).
Defined.

End IndexChannelTolerance.

(** ** The quorum rule, from the node channels to the sink *)

Section ListCounting.

Lemma forallb_ext_all {A : Type} (f g : A -> bool) (l : list A) :
  (forall a, f a = g a) -> forallb f l = forallb g l.
Proof. intros H. induction l as [| a l IH]; cbn; [done | by rewrite H, IH]. Qed.

Lemma filter_length_impl {A : Type} (p q : A -> bool) (l : list A) :
  (forall a, p a = true -> q a = true) ->
  (length (List.filter p l) <= length (List.filter q l))%nat.
Proof.
  intros H. induction l as [| a l IH]; cbn; [done |].
  destruct (p a) eqn:Hp.
  - rewrite (H a Hp). cbn. lia.
  - destruct (q a); cbn; lia.
Qed.

(** Of the distinct elements of [l], all but those in [bad] pass [p]. *)
Lemma filter_all_but (p : Z -> bool) (l bad : list Z) :
  NoDup l ->
  (forall n, n ∈ l -> n ∉ bad -> p n = true) ->
  (length l <= length (List.filter p l) + length bad)%nat.
Proof.
  intros Hnd. revert bad. induction Hnd as [| x l Hx Hnd IH]; intros bad Hp; cbn; [lia |].
  destruct (p x) eqn:Hpx.
  - cbn. enough (length l <= length (List.filter p l) + length bad)%nat by lia.
    apply IH. intros n Hn. apply Hp. by right.
  - assert (Hbad : x ∈ bad).
    { destruct (decide (x ∈ bad)) as [| Hnot]; [done |].
      rewrite (Hp x) in Hpx; [discriminate | by left | done]. }
    apply list_elem_of_split in Hbad as (l1 & l2 & ->).
    assert (Hrest : (length l <= length (List.filter p l) + length (l1 ++ l2))%nat).
    { apply IH. intros n Hn Hnot. apply Hp; [by right |].
      intros Hin. apply Hnot.
      apply elem_of_app in Hin as [Hin | Hin]; [apply elem_of_app; by left |].
      apply elem_of_cons in Hin as [-> | Hin]; [done | apply elem_of_app; by right]. }
    rewrite !length_app in *. cbn. lia.
Qed.

(** Two distinct elements of [l] that fail [p] leave at most [length l - 2]
    that pass. *)
Lemma filter_two_out (p : Z -> bool) (l : list Z) (n1 n2 : Z) :
  n1 ∈ l -> n2 ∈ l -> n1 <> n2 -> p n1 = false -> p n2 = false ->
  (length (List.filter p l) + 2 <= length l)%nat.
Proof.
  intros H1 H2 Hne Hp1 Hp2.
  apply list_elem_of_split in H1 as (l1 & l2 & ->).
  rewrite List.filter_app, !length_app. cbn. rewrite Hp1.
  pose proof (List.filter_length_le p l1) as Hl1.
  pose proof (List.filter_length_le p l2) as Hl2.
  apply elem_of_app in H2 as [H2 | H2].
  - apply list_elem_of_split in H2 as (l3 & l4 & ->).
    rewrite List.filter_app, !length_app in *. cbn in *. rewrite Hp2 in *.
    pose proof (List.filter_length_le p l3). pose proof (List.filter_length_le p l4). lia.
  - apply elem_of_cons in H2 as [-> | H2]; [done |].
    apply list_elem_of_split in H2 as (l3 & l4 & ->).
    rewrite List.filter_app, !length_app in *. cbn in *. rewrite Hp2 in *.
    pose proof (List.filter_length_le p l3). pose proof (List.filter_length_le p l4). lia.
Qed.

End ListCounting.

Section NodeChannelOperations.
Import NodeChannel.

(** What the index channel runs on a node channel leaves the failure mark
    and the stub of the channel alone, and returns OK on a channel whose
    backend is reliable. *)
Lemma wait_in_flight_packet_good (ch : t) :
  already_failed (_wait_in_flight_packet ch).2 = already_failed ch /\
  _stub (_wait_in_flight_packet ch).2 = _stub ch /\
  (reliable (_stub ch) -> (_wait_in_flight_packet ch).1 = OK).
Proof.
  unfold _wait_in_flight_packet. destruct (_has_in_flight_packet ch); cbn; [| done].
  split; [done |]. split; [done |]. by intros [_ ->].
Qed.

Lemma send_cur_batch_good (eos : bool) (ch : t) :
  already_failed (_send_cur_batch eos ch).2 = already_failed ch /\
  _stub (_send_cur_batch eos ch).2 = _stub ch /\
  (reliable (_stub ch) -> (_send_cur_batch eos ch).1 = OK).
Proof.
  unfold _send_cur_batch.
  destruct (wait_in_flight_packet_good ch) as (Hf & Hs & Hok).
  destruct (_wait_in_flight_packet ch) as [st ch1]; cbn in *.
  destruct st; cbn; [done |].
  split; [done |]. split; [done |]. intros Hrel. by specialize (Hok Hrel).
Qed.

Lemma add_row_good (tuple : Tuple) (tablet_id : Z) (ch : t) :
  already_failed (add_row tuple tablet_id ch).2 = already_failed ch /\
  _stub (add_row tuple tablet_id ch).2 = _stub ch /\
  (reliable (_stub ch) -> (add_row tuple tablet_id ch).1 = OK).
Proof.
  unfold add_row. destruct (_ <=? _)%nat; [| done].
  apply (send_cur_batch_good false (with_batch _ ch)).
Qed.

Lemma open_wait_good (ch : t) :
  already_failed (open_wait ch).2 = already_failed ch /\
  _stub (open_wait ch).2 = _stub ch /\
  (reliable (_stub ch) -> (open_wait ch).1 = OK).
Proof. unfold open_wait; cbn. split; [done |]. split; [done |]. by intros [-> _]. Qed.

End NodeChannelOperations.

Section QuorumVerdict.
Import IndexChannel.
Variable quorum : Z -> Z.

Lemma quorum_ok_live_ext (a b : t) :
  _channels_by_tablet a = _channels_by_tablet b ->
  _parent_num_repicas a = _parent_num_repicas b ->
  (forall n, live a n = live b n) ->
  quorum_ok quorum a = quorum_ok quorum b.
Proof.
  intros Ht Hr Hl. unfold quorum_ok, has_quorum, live_replicas. rewrite Ht, Hr.
  apply forallb_ext_all. intros kv. do 3 f_equal. by apply List.filter_ext.
Qed.

Lemma live_insert_same (idx : t) (node : Z) (ch ch1 : NodeChannel.t) (n : Z) :
  _node_channels idx !! node = Some ch ->
  NodeChannel.already_failed ch1 = NodeChannel.already_failed ch ->
  live (with_node_channels (<[node := ch1]> (_node_channels idx)) idx) n = live idx n.
Proof.
  intros Hch Hf. unfold live. cbn. rewrite lookup_insert. case_decide as Hd; [| done].
  subst n. by rewrite Hch, Hf.
Qed.

Lemma quorum_ok_has_quorum (idx : t) (tablet_id : Z) (replicas : list Z) :
  quorum_ok quorum idx = true ->
  _channels_by_tablet idx !! tablet_id = Some replicas ->
  has_quorum quorum idx replicas = true.
Proof.
  unfold quorum_ok. intros Hok Hin.
  rewrite forallb_forall in Hok.
  apply (Hok (tablet_id, replicas)). by apply list_elem_of_In, elem_of_map_to_list.
Qed.

Lemma has_quorum_quorum_ok (idx : t) :
  (forall tablet_id replicas,
     _channels_by_tablet idx !! tablet_id = Some replicas ->
     has_quorum quorum idx replicas = true) ->
  quorum_ok quorum idx = true.
Proof.
  intros H. unfold quorum_ok. apply forallb_forall. intros [tablet_id replicas] Hin.
  apply list_elem_of_In, elem_of_map_to_list in Hin. by apply (H tablet_id).
Qed.

(** A pass over node channels changes neither the replica lists nor the
    replication factor, and brings no channel back to life. *)
Lemma for_each_live_frame (f : NodeChannel.t -> Status * NodeChannel.t)
    (nodes : list Z) (idx : t) :
  let idx' := (for_each_live quorum f nodes idx).2 in
  _channels_by_tablet idx' = _channels_by_tablet idx /\
  _parent_num_repicas idx' = _parent_num_repicas idx.
Proof.
  cbn zeta. revert idx. induction nodes as [| node rest IH]; intros idx;
    cbn [for_each_live]; [done |].
  destruct (_node_channels idx !! node) as [ch |]; [| apply IH].
  destruct (NodeChannel.already_failed ch); [apply IH |].
  destruct (f ch) as [st ch1].
  set (idx1 := with_node_channels _ idx).
  destruct st; [apply (IH idx1) |].
  pose proof (handle_failed_node_frame quorum node idx1) as (Ht & Hr & _).
  destruct (handle_failed_node quorum node idx1) as [fatal idx2]. cbn in Ht, Hr.
  destruct fatal; cbn; [done |].
  destruct (IH idx2) as [-> ->]. done.
Qed.

Lemma for_each_live_mono (f : NodeChannel.t -> Status * NodeChannel.t)
    (nodes : list Z) (idx : t) (n : Z) :
  live (for_each_live quorum f nodes idx).2 n = true -> live idx n = true.
Proof.
  revert idx. induction nodes as [| node rest IH]; intros idx;
    cbn [for_each_live]; [done |].
  destruct (_node_channels idx !! node) as [ch |] eqn:Hch; [| apply IH].
  destruct (NodeChannel.already_failed ch) eqn:Hfailed; [apply IH |].
  destruct (f ch) as [st ch1].
  set (idx1 := with_node_channels (<[node := ch1]> (_node_channels idx)) idx).
  assert (H1 : live idx1 n = true -> live idx n = true).
  { unfold live. cbn. rewrite lookup_insert. case_decide as Hd; [| done].
    subst n. by rewrite Hch, Hfailed. }
  destruct st; [intros H; by apply H1, IH |].
  pose proof (handle_failed_node_frame quorum node idx1) as (_ & _ & Hn).
  destruct (handle_failed_node quorum node idx1) as [fatal idx2]. cbn in Hn.
  assert (H2 : live idx2 n = true -> live idx1 n = true).
  { rewrite (live_after_alter node idx1 idx2 n Hn). by intros [? _]%andb_true_iff. }
  destruct fatal; cbn; intros H; [by apply H1, H2 | by apply H1, H2, IH].
Qed.

Section Pass.
Variable f : NodeChannel.t -> Status * NodeChannel.t.
Hypothesis f_keeps_mark :
  forall ch, NodeChannel.already_failed (f ch).2 = NodeChannel.already_failed ch.

(** The status of a pass tells whether the quorum still holds. *)
Lemma for_each_live_verdict (nodes : list Z) (idx : t) :
  quorum_ok quorum idx = true ->
  verdict (for_each_live quorum f nodes idx).1
          (quorum_ok quorum (for_each_live quorum f nodes idx).2).
Proof.
  revert idx. induction nodes as [| node rest IH]; intros idx Hok;
    cbn [for_each_live]; [by left |].
  destruct (_node_channels idx !! node) as [ch |] eqn:Hch; [| by apply IH].
  destruct (NodeChannel.already_failed ch) eqn:Hfailed; [by apply IH |].
  pose proof (f_keeps_mark ch) as Hmark.
  destruct (f ch) as [st ch1]. cbn in Hmark.
  set (idx1 := with_node_channels (<[node := ch1]> (_node_channels idx)) idx).
  assert (Hok1 : quorum_ok quorum idx1 = true).
  { rewrite <- Hok. apply quorum_ok_live_ext; [done | done |].
    intros n. by apply (live_insert_same idx node ch). }
  destruct st; [by apply IH |].
  pose proof (handle_failed_node_verdict quorum node idx1 Hok1) as Hv.
  destruct (handle_failed_node quorum node idx1) as [fatal idx2]. cbn in Hv.
  destruct fatal; cbn.
  - right. split; [done |]. by destruct (quorum_ok quorum idx2).
  - apply IH. by destruct (quorum_ok quorum idx2).
Qed.

Variable good : Z -> Prop.
Hypothesis f_keeps_stub :
  forall ch, NodeChannel._stub (f ch).2 = NodeChannel._stub ch.
Hypothesis f_reliable :
  forall ch, NodeChannel.reliable (NodeChannel._stub ch) -> (f ch).1 = OK.

(** A pass marks no channel whose backend is reliable. *)
Lemma for_each_live_reliable (nodes : list Z) (idx : t) :
  all_reliable good idx -> all_reliable good (for_each_live quorum f nodes idx).2.
Proof.
  revert idx. induction nodes as [| node rest IH]; intros idx Hall;
    cbn [for_each_live]; [done |].
  destruct (_node_channels idx !! node) as [ch |] eqn:Hch; [| by apply IH].
  destruct (NodeChannel.already_failed ch) eqn:Hfailed; [by apply IH |].
  pose proof (f_keeps_mark ch) as Hmark. pose proof (f_keeps_stub ch) as Hstub.
  pose proof (f_reliable ch) as Hrel.
  destruct (f ch) as [st ch1]. cbn in Hmark, Hstub, Hrel.
  set (idx1 := with_node_channels (<[node := ch1]> (_node_channels idx)) idx).
  assert (Hall1 : all_reliable good idx1).
  { intros n Hn. destruct (Hall n Hn) as (chn & Hchn & Hr & Hl).
    unfold idx1. cbn. rewrite lookup_insert. case_decide as Hd; [| by exists chn].
    subst n. rewrite Hch in Hchn. injection Hchn as <-.
    exists ch1. by rewrite Hstub, Hmark. }
  destruct st as [| e]; [by apply IH |].
  assert (Hbad : ~ good node).
  { intros Hn. destruct (Hall node Hn) as (chn & Hchn & Hr & _).
    rewrite Hch in Hchn. injection Hchn as <-. by specialize (Hrel Hr). }
  pose proof (handle_failed_node_frame quorum node idx1) as (_ & _ & Hn).
  destruct (handle_failed_node quorum node idx1) as [fatal idx2]. cbn in Hn.
  assert (Hall2 : all_reliable good idx2).
  { intros n Hgood. destruct (Hall1 n Hgood) as (chn & Hchn & Hr & Hl).
    exists chn. rewrite Hn, lookup_alter_ne; [done |]. by intros ->. }
  destruct fatal; cbn; [done | by apply IH].
Qed.

End Pass.

(** [open] as one pass of [open_wait]: [NodeChannel::open] leaves the
    channels as they are. *)
Lemma open_unfold (idx : t) :
  open quorum idx = for_each_live quorum NodeChannel.open_wait (all_nodes idx) idx.
Proof.
  unfold open.
  assert (Hid : NodeChannel.open <$> _node_channels idx = _node_channels idx)
    by apply (map_fmap_id (_node_channels idx)).
  assert (Hidx : with_node_channels (NodeChannel.open <$> _node_channels idx) idx = idx)
    by (rewrite Hid; by destruct idx).
  by rewrite Hidx.
Qed.

Lemma open_verdict (idx : t) :
  quorum_ok quorum idx = true ->
  verdict (open quorum idx).1 (quorum_ok quorum (open quorum idx).2).
Proof.
  rewrite open_unfold. apply for_each_live_verdict. intros ch. apply open_wait_good.
Qed.

Lemma add_row_verdict (tuple : Tuple) (tablet_id : Z) (idx : t) :
  quorum_ok quorum idx = true ->
  verdict (add_row quorum tuple tablet_id idx).1
          (quorum_ok quorum (add_row quorum tuple tablet_id idx).2).
Proof. apply for_each_live_verdict. intros ch. apply add_row_good. Qed.

Lemma close_verdict (idx : t) :
  quorum_ok quorum idx = true ->
  verdict (close quorum idx).1 (quorum_ok quorum (close quorum idx).2).
Proof.
  intros Hok. unfold close.
  pose proof (for_each_live_verdict NodeChannel.close
                (fun ch => proj1 (send_cur_batch_good true ch)) (all_nodes idx) idx Hok) as H1.
  destruct (for_each_live quorum NodeChannel.close (all_nodes idx) idx) as [st idx1].
  cbn in H1. destruct H1 as [[-> Hok1] | [-> Hlost]]; [| by right].
  apply for_each_live_verdict; [| done]. intros ch. apply wait_in_flight_packet_good.
Qed.

Lemma add_rows_verdict (rows : list (Tuple * Z)) (idx : t) :
  quorum_ok quorum idx = true ->
  verdict (add_rows quorum rows idx).1 (quorum_ok quorum (add_rows quorum rows idx).2).
Proof.
  revert idx. induction rows as [| [tuple tablet_id] rest IH]; intros idx Hok;
    cbn [add_rows]; [by left |].
  pose proof (add_row_verdict tuple tablet_id idx Hok) as H1.
  destruct (add_row quorum tuple tablet_id idx) as [st idx1]. cbn in H1.
  destruct H1 as [[-> Hok1] | [-> Hlost]]; [by apply IH | by right].
Qed.

Lemma add_rows_app (rows1 rows2 : list (Tuple * Z)) (idx : t) :
  add_rows quorum (rows1 ++ rows2) idx
  = match (add_rows quorum rows1 idx).1 with
    | OK => add_rows quorum rows2 (add_rows quorum rows1 idx).2
    | Error e => add_rows quorum rows1 idx
    end.
Proof.
  revert idx. induction rows1 as [| [tuple tablet_id] rest IH]; intros idx;
    cbn [add_rows app]; [done |].
  destruct (add_row quorum tuple tablet_id idx) as [st idx1].
  destruct st; [apply IH | done].
Qed.

(** The status of a load tells whether the quorum holds at its end. *)
Lemma load_verdict (rows : list (Tuple * Z)) (idx : t) :
  quorum_ok quorum idx = true ->
  verdict (load quorum rows idx).1 (quorum_ok quorum (load quorum rows idx).2).
Proof.
  intros Hok. unfold load.
  pose proof (open_verdict idx Hok) as H1.
  destruct (open quorum idx) as [st1 idx1]. cbn in H1.
  destruct H1 as [[-> Hok1] | [-> Hlost]]; [| by right].
  pose proof (add_rows_verdict rows idx1 Hok1) as H2.
  destruct (add_rows quorum rows idx1) as [st2 idx2]. cbn in H2.
  destruct H2 as [[-> Hok2] | [-> Hlost]]; [| by right].
  by apply close_verdict.
Qed.

(** A load that ends OK has had the quorum after [open] and after each
    of its rows. *)
Lemma load_ok_after_rows (rows : list (Tuple * Z)) (idx : t) (k : nat) :
  quorum_ok quorum idx = true ->
  (load quorum rows idx).1 = OK ->
  quorum_ok quorum (after_rows quorum rows k idx) = true.
Proof.
  intros Hok. unfold load, after_rows.
  pose proof (open_verdict idx Hok) as H1.
  destruct (open quorum idx) as [st1 idx1]. cbn in H1 |- *.
  destruct H1 as [[-> Hok1] | [-> Hlost]]; [| discriminate].
  rewrite <- (take_drop k rows) at 1. rewrite add_rows_app.
  pose proof (add_rows_verdict (take k rows) idx1 Hok1) as H2.
  destruct (add_rows quorum (take k rows) idx1) as [st2 idx2]. cbn in H2 |- *.
  destruct H2 as [[-> Hok2] | [-> Hlost]]; [done | discriminate].
Qed.

Lemma load_frame (rows : list (Tuple * Z)) (idx : t) :
  _channels_by_tablet (load quorum rows idx).2 = _channels_by_tablet idx /\
  _parent_num_repicas (load quorum rows idx).2 = _parent_num_repicas idx.
Proof.
  assert (Hrows : forall rows i,
            _channels_by_tablet (add_rows quorum rows i).2 = _channels_by_tablet i /\
            _parent_num_repicas (add_rows quorum rows i).2 = _parent_num_repicas i).
  { clear. induction rows as [| [tuple tablet_id] rest IH]; intros i; cbn [add_rows]; [done |].
    pose proof (for_each_live_frame (NodeChannel.add_row tuple tablet_id)
                  (get_node_channels tablet_id i) i) as H1.
    fold (add_row quorum tuple tablet_id i) in H1.
    destruct (add_row quorum tuple tablet_id i) as [st i1]. cbn in H1.
    destruct H1 as [H1 H2]. destruct st; [| done].
    destruct (IH i1) as [-> ->]. done. }
  unfold load. rewrite open_unfold.
  pose proof (for_each_live_frame NodeChannel.open_wait (all_nodes idx) idx) as [H1 H2].
  destruct (for_each_live quorum NodeChannel.open_wait (all_nodes idx) idx) as [st1 idx1].
  cbn in H1, H2. destruct st1; [| done].
  destruct (Hrows rows idx1) as [H3 H4].
  destruct (add_rows quorum rows idx1) as [st2 idx2]. cbn in H3, H4.
  destruct st2; [| cbn; split; congruence].
  unfold close.
  pose proof (for_each_live_frame NodeChannel.close (all_nodes idx2) idx2) as [H5 H6].
  destruct (for_each_live quorum NodeChannel.close (all_nodes idx2) idx2) as [st3 idx3].
  cbn in H5, H6. destruct st3; [| cbn; split; congruence].
  destruct (for_each_live_frame NodeChannel.close_wait (all_nodes idx3) idx3) as [H7 H8].
  split; congruence.
Qed.

(** A load marks no channel whose backend is reliable. *)
Lemma load_reliable (good : Z -> Prop) (rows : list (Tuple * Z)) (idx : t) :
  all_reliable good idx -> all_reliable good (load quorum rows idx).2.
Proof.
  assert (Hpass : forall f nodes i,
            (forall ch, NodeChannel.already_failed (f ch).2 = NodeChannel.already_failed ch /\
                        NodeChannel._stub (f ch).2 = NodeChannel._stub ch /\
                        (NodeChannel.reliable (NodeChannel._stub ch) -> (f ch).1 = OK)) ->
            all_reliable good i -> all_reliable good (for_each_live quorum f nodes i).2).
  { intros f nodes i Hf. apply for_each_live_reliable; intros ch; apply Hf. }
  assert (Hrows : forall rows i,
            all_reliable good i -> all_reliable good (add_rows quorum rows i).2).
  { clear idx rows. induction rows as [| [tuple tablet_id] rest IH]; intros i Hi;
      cbn [add_rows]; [done |].
    pose proof (Hpass (NodeChannel.add_row tuple tablet_id) (get_node_channels tablet_id i) i
                  (add_row_good tuple tablet_id) Hi) as H1.
    fold (add_row quorum tuple tablet_id i) in H1.
    destruct (add_row quorum tuple tablet_id i) as [st i1]. cbn in H1.
    destruct st; [by apply IH | done]. }
  intros Hall. unfold load. rewrite open_unfold.
  pose proof (Hpass NodeChannel.open_wait (all_nodes idx) idx open_wait_good Hall) as H1.
  destruct (for_each_live quorum NodeChannel.open_wait (all_nodes idx) idx) as [st1 idx1].
  cbn in H1. destruct st1; [| done].
  pose proof (Hrows rows idx1 H1) as H2.
  destruct (add_rows quorum rows idx1) as [st2 idx2]. cbn in H2.
  destruct st2; [| done].
  unfold close.
  pose proof (Hpass NodeChannel.close (all_nodes idx2) idx2 (send_cur_batch_good true) H2) as H3.
  destruct (for_each_live quorum NodeChannel.close (all_nodes idx2) idx2) as [st3 idx3].
  cbn in H3. destruct st3; [| done].
  by apply (Hpass NodeChannel.close_wait (all_nodes idx3) idx3 wait_in_flight_packet_good).
Qed.

Lemma accepts_open_ext (a b : t) (n : Z) :
  (NodeChannel._stub <$> _node_channels a !! n) = (NodeChannel._stub <$> _node_channels b !! n) ->
  accepts_open a n = accepts_open b n.
Proof.
  unfold accepts_open.
  destruct (_node_channels a !! n), (_node_channels b !! n); cbn; try done.
  by intros [= ->].
Qed.

(** After an [open] that returns OK, a channel that is live is one whose
    backend has accepted the open request. *)
Lemma open_wait_visit (nodes : list Z) (idx idx' : t) :
  for_each_live quorum NodeChannel.open_wait nodes idx = (OK, idx') ->
  forall n, n ∈ nodes -> live idx' n = true -> accepts_open idx n = true.
Proof.
  revert idx. induction nodes as [| node rest IH]; intros idx Hrun n Hn Hlive;
    [by apply elem_of_nil in Hn |].
  assert (Hmono : live idx n = true).
  { pose proof (for_each_live_mono NodeChannel.open_wait (node :: rest) idx n) as H.
    rewrite Hrun in H. by apply H. }
  cbn [for_each_live] in Hrun.
  destruct (_node_channels idx !! node) as [ch |] eqn:Hch.
  - destruct (NodeChannel.already_failed ch) eqn:Hfailed.
    + apply elem_of_cons in Hn as [-> | Hn]; [| by apply (IH idx)].
      unfold live in Hmono. by rewrite Hch, Hfailed in Hmono.
    + change (NodeChannel.open_wait ch)
        with (NodeChannel.answer_open (NodeChannel._stub ch), ch) in Hrun.
      cbv beta iota zeta in Hrun.
      remember (with_node_channels (<[node := ch]> (_node_channels idx)) idx)
        as idx1 eqn:Hidx1.
      assert (Hsame : forall m, accepts_open idx1 m = accepts_open idx m).
      { intros m. apply accepts_open_ext. rewrite Hidx1. cbn. by rewrite insert_id. }
      clear Hidx1.
      destruct (NodeChannel.answer_open (NodeChannel._stub ch)) eqn:Ha.
      * apply elem_of_cons in Hn as [-> | Hn].
        -- unfold accepts_open. by rewrite Hch, Ha.
        -- rewrite <- Hsame. by apply (IH idx1).
      * pose proof (handle_failed_node_frame quorum node idx1) as (_ & _ & Halter).
        destruct (handle_failed_node quorum node idx1) as [fatal idx2]. cbn in Halter.
        destruct fatal; [discriminate |].
        assert (Hlive2 : live idx2 n = true).
        { pose proof (for_each_live_mono NodeChannel.open_wait rest idx2 n) as H.
          rewrite Hrun in H. by apply H. }
        rewrite (live_after_alter node idx1 idx2 n Halter) in Hlive2.
        apply andb_true_iff in Hlive2 as [_ Hne%negb_true_iff%Z.eqb_neq].
        apply elem_of_cons in Hn as [-> | Hn]; [done |].
        rewrite <- Hsame.
        rewrite <- (accepts_open_ext idx2 idx1 n); [by apply (IH idx2) |].
        rewrite Halter, lookup_alter_ne; [done | congruence].
  - apply elem_of_cons in Hn as [-> | Hn]; [| by apply (IH idx)].
    unfold live in Hmono. by rewrite Hch in Hmono.
Qed.

(** A tablet with fewer replicas that accept the open request than the
    quorum loses the load. *)
Lemma load_lost_at_open (rows : list (Tuple * Z)) (idx : t)
    (tablet_id : Z) (replicas : list Z) :
  quorum_ok quorum idx = true ->
  _channels_by_tablet idx !! tablet_id = Some replicas ->
  Z.of_nat (length (List.filter (accepts_open idx) replicas))
  < quorum (_parent_num_repicas idx) ->
  (load quorum rows idx).1 = Error QuorumLost.
Proof.
  intros Hok Hin Hfew. unfold load.
  pose proof (open_verdict idx Hok) as H1.
  pose proof (open_unfold idx) as Hopen.
  destruct (open quorum idx) as [st1 idx1]. cbn in H1.
  destruct H1 as [[-> Hok1] | [-> Hlost]]; [| done].
  exfalso.
  pose proof (for_each_live_frame NodeChannel.open_wait (all_nodes idx) idx) as [Ht Hr].
  rewrite <- Hopen in Ht, Hr. cbn in Ht, Hr.
  assert (Hq : has_quorum quorum idx1 replicas = true).
  { apply (quorum_ok_has_quorum idx1 tablet_id); [done | by rewrite Ht]. }
  unfold has_quorum, live_replicas in Hq. apply Z.leb_le in Hq. rewrite Hr in Hq.
  enough (Hle : (length (List.filter (live idx1) replicas)
                 <= length (List.filter (accepts_open idx) replicas))%nat) by lia.
  apply filter_length_impl. intros n Hlive. apply (open_wait_visit (all_nodes idx) idx idx1); [done | | done].
  pose proof (for_each_live_mono NodeChannel.open_wait (all_nodes idx) idx n) as Hmono.
  rewrite <- Hopen in Hmono. specialize (Hmono Hlive).
  unfold live in Hmono. destruct (_node_channels idx !! n) as [ch |] eqn:Hch; [| done].
  unfold all_nodes. apply list_elem_of_fmap. exists (n, ch). split; [done |].
  by apply elem_of_map_to_list.
Qed.

End QuorumVerdict.

Section SinkVerdict.
Import OlapTableSink.
Variable quorum : Z -> Z.
Variable find_tablet : Tuple -> option (Z * list Z).
Variable route_buffered : Tuple -> list Z -> Routing -> Status * Routing.
Variable _multi_thread_close : bool -> Routing -> Routing.

Lemma route_direct_verdict (tuple : Tuple) (tablets : list Z) (chs : list IndexChannel.t) :
  forallb (IndexChannel.quorum_ok quorum) chs = true ->
  IndexChannel.verdict (route_direct quorum tuple tablets chs).1
    (forallb (IndexChannel.quorum_ok quorum) (route_direct quorum tuple tablets chs).2).
Proof.
  revert tablets. induction chs as [| idx chs' IH]; intros tablets Hall.
  - left. by destruct tablets.
  - destruct tablets as [| tablet_id tablets']; [by left |].
    cbn [route_direct]. cbn in Hall. apply andb_true_iff in Hall as [Hidx Hrest].
    pose proof (add_row_verdict quorum tuple tablet_id idx Hidx) as H1.
    destruct (IndexChannel.add_row quorum tuple tablet_id idx) as [st idx1]. cbn in H1.
    destruct H1 as [[-> Hok1] | [-> Hlost]].
    + specialize (IH tablets' Hrest).
      destruct (route_direct quorum tuple tablets' chs') as [st' rest']. cbn in IH |- *.
      by rewrite Hok1.
    + right. cbn. by rewrite Hlost.
Qed.

Lemma send_row_verdict (i : nat) (tuple : Tuple) (s : t) :
  _use_multi_thread s = false ->
  forallb (IndexChannel.quorum_ok quorum) (_channels s) = true ->
  let r := send_row quorum find_tablet route_buffered i tuple s in
  IndexChannel.verdict r.1 (forallb (IndexChannel.quorum_ok quorum) (_channels r.2)) /\
  _buffer_num r.2 = _buffer_num s.
Proof.
  intros Hmode Hall. cbn zeta. unfold send_row.
  destruct (default false (_filter_bitmap s !! i)); [split; [by left | done] |].
  destruct (find_tablet tuple) as [[partition_id tablets] |]; [| split; [by left | done]].
  unfold route_row.
  change (_use_multi_thread (with_partition_ids _ s)) with (_use_multi_thread s).
  rewrite Hmode. cbn [_channels _buffers with_partition_ids].
  pose proof (route_direct_verdict tuple tablets (_channels s) Hall) as H1.
  destruct (route_direct quorum tuple tablets (_channels s)) as [st chs]. cbn in H1.
  destruct H1 as [[-> Hok1] | [-> Hlost]]; cbn; (split; [| done]); [by left | by right].
Qed.

Lemma send_rows_verdict (batch : list Tuple) (i : nat) (s : t) :
  _use_multi_thread s = false ->
  forallb (IndexChannel.quorum_ok quorum) (_channels s) = true ->
  let r := send_rows quorum find_tablet route_buffered i batch s in
  IndexChannel.verdict r.1 (forallb (IndexChannel.quorum_ok quorum) (_channels r.2)) /\
  _buffer_num r.2 = _buffer_num s.
Proof.
  cbn zeta. revert i s. induction batch as [| tuple rest IH]; intros i s Hmode Hall;
    cbn [send_rows]; [split; [by left | done] |].
  pose proof (send_row_verdict i tuple s Hmode Hall) as [H1 Hb]. cbn zeta in H1, Hb.
  destruct (send_row quorum find_tablet route_buffered i tuple s) as [st s1].
  cbn in H1, Hb.
  destruct H1 as [[-> Hok1] | [-> Hlost]]; [| split; [by right | done]].
  assert (Hmode1 : _use_multi_thread s1 = false)
    by (unfold _use_multi_thread in *; by rewrite Hb).
  destruct (IH (S i) s1 Hmode1 Hok1) as [H2 Hb2]. split; [done | congruence].
Qed.

Lemma send_verdict (input_batch : list Tuple) (s : t) :
  _use_multi_thread s = false ->
  forallb (IndexChannel.quorum_ok quorum) (_channels s) = true ->
  let r := send quorum find_tablet route_buffered input_batch s in
  IndexChannel.verdict r.1 (forallb (IndexChannel.quorum_ok quorum) (_channels r.2)) /\
  _buffer_num r.2 = _buffer_num s.
Proof.
  intros Hmode Hall. cbn zeta. unfold send, send_output.
  destruct (if _need_validate_data _ then _ else _) as [num_invalid bitmap].
  set (s1 := with_filter_bitmap bitmap _).
  change (_buffer_num s) with (_buffer_num s1).
  by apply (send_rows_verdict _ 0%nat s1).
Qed.

(** In single-threaded mode the status of the sends tells whether every
    index channel still has its quorum. *)
Lemma send_all_verdict (batches : list (list Tuple)) (s : t) :
  _use_multi_thread s = false ->
  forallb (IndexChannel.quorum_ok quorum) (_channels s) = true ->
  let r := send_all quorum find_tablet route_buffered batches s in
  IndexChannel.verdict r.1 (forallb (IndexChannel.quorum_ok quorum) (_channels r.2)) /\
  _buffer_num r.2 = _buffer_num s.
Proof.
  cbn zeta. revert s. induction batches as [| batch rest IH]; intros s Hmode Hall;
    cbn [send_all]; [split; [by left | done] |].
  pose proof (send_verdict batch s Hmode Hall) as [H1 Hb]. cbn zeta in H1, Hb.
  destruct (send quorum find_tablet route_buffered batch s) as [st s1]. cbn in H1, Hb.
  destruct H1 as [[-> Hok1] | [-> Hlost]]; [| split; [by right | done]].
  assert (Hmode1 : _use_multi_thread s1 = false)
    by (unfold _use_multi_thread in *; by rewrite Hb).
  destruct (IH s1 Hmode1 Hok1) as [H2 Hb2]. split; [done | congruence].
Qed.

Lemma close_channels_verdict (chs : list IndexChannel.t) :
  forallb (IndexChannel.quorum_ok quorum) chs = true ->
  IndexChannel.verdict (close_channels quorum chs).1
    (forallb (IndexChannel.quorum_ok quorum) (close_channels quorum chs).2).
Proof.
  induction chs as [| idx rest IH]; intros Hall; cbn [close_channels]; [by left |].
  cbn in Hall. apply andb_true_iff in Hall as [Hidx Hrest].
  pose proof (close_verdict quorum idx Hidx) as H1.
  destruct (IndexChannel.close quorum idx) as [st idx1]. cbn in H1.
  specialize (IH Hrest). destruct (close_channels quorum rest) as [st' rest1].
  cbn in IH |- *.
  destruct H1 as [[-> Hok1] | [-> Hlost]]; rewrite ?Hok1, ?Hlost; [done | by right].
Qed.

(** In single-threaded mode the status that [close] returns after the
    sends is OK exactly when the sends returned OK and every index channel
    has its quorum at the end; otherwise it is [QuorumLost]. *)
Lemma sink_verdict (batches : list (list Tuple)) (s : t) :
  _use_multi_thread s = false ->
  forallb (IndexChannel.quorum_ok quorum) (_channels s) = true ->
  let sent := send_all quorum find_tablet route_buffered batches s in
  let closed := close quorum _multi_thread_close sent.1 sent.2 in
  (sent.1 = OK <->
   forallb (IndexChannel.quorum_ok quorum) (_channels sent.2) = true) /\
  (closed.1.1 = OK \/ closed.1.1 = Error QuorumLost) /\
  (closed.1.1 = OK <->
   sent.1 = OK /\
   forallb (IndexChannel.quorum_ok quorum) (_channels closed.1.2) = true).
Proof.
  intros Hmode Hall. cbn zeta.
  pose proof (send_all_verdict batches s Hmode Hall) as [H1 Hb]. cbn zeta in H1, Hb.
  destruct (send_all quorum find_tablet route_buffered batches s) as [st s1].
  cbn in H1, Hb |- *.
  assert (Hmode1 : _use_multi_thread s1 = false)
    by (unfold _use_multi_thread in *; by rewrite Hb).
  destruct H1 as [[-> Hok1] | [-> Hlost]].
  - split; [done |]. unfold close. rewrite Hmode1.
    pose proof (close_channels_verdict (_channels s1) Hok1) as H2.
    change ((routing s1).1) with (_channels s1).
    destruct (close_channels quorum (_channels s1)) as [st2 chs]. cbn in H2 |- *.
    destruct H2 as [[-> Hok2] | [-> Hlost2]].
    + split; [by left | done].
    + split; [by right |]. split; [done |]. intros [_ H]. congruence.
  - split; [split; [done | congruence] |]. cbn.
    split; [by right |]. split; [done | by intros [? _]].
Qed.

End SinkVerdict.

Section QuorumRule.
Import IndexChannel.

Lemma strict_majority_iff (R n : Z) : strict_majority R <= n <-> R < 2 * n.
Proof.
  unfold strict_majority.
  pose proof (Z.div_mod R 2 ltac:(lia)). pose proof (Z.mod_pos_bound R 2 ltac:(lia)). lia.
Qed.

Lemma quorum_ok_iff (quorum : Z -> Z) (idx : t) :
  quorum_ok quorum idx = true <->
  forall tablet_id replicas,
    _channels_by_tablet idx !! tablet_id = Some replicas ->
    quorum (_parent_num_repicas idx) <= live_replicas idx replicas.
Proof.
  split.
  - intros Hok tablet_id replicas Hin.
    apply Z.leb_le. by apply (quorum_ok_has_quorum quorum idx tablet_id).
  - intros H. apply has_quorum_quorum_ok. intros tablet_id replicas Hin.
    apply Z.leb_le. by apply (H tablet_id).
Qed.

(** With the strict majority as quorum, a load goes through when the
    backends that do not answer every request with OK are fewer than half of
    the replication factor. *)
Lemma load_tolerates (idx : t) (rows : list (Tuple * Z)) (bad : list Z) :
  quorum_ok strict_majority idx = true ->
  2 * Z.of_nat (length bad) < _parent_num_repicas idx ->
  (forall tablet_id replicas,
     _channels_by_tablet idx !! tablet_id = Some replicas ->
     NoDup replicas /\ Z.of_nat (length replicas) = _parent_num_repicas idx) ->
  (forall tablet_id replicas node,
     _channels_by_tablet idx !! tablet_id = Some replicas ->
     node ∈ replicas -> node ∉ bad ->
     exists ch, _node_channels idx !! node = Some ch /\
                NodeChannel.reliable (NodeChannel._stub ch) /\
                NodeChannel.already_failed ch = false) ->
  (load strict_majority rows idx).1 = OK.
Proof.
  intros Hok Hfew Hreps Hgood.
  set (good := fun node : Z =>
         (node ∉ bad) /\
         (exists tablet_id replicas,
            _channels_by_tablet idx !! tablet_id = Some replicas /\ node ∈ replicas)).
  assert (Hall : all_reliable good idx).
  { intros node (Hnot & tablet_id & replicas & Hin & Hnode).
    by apply (Hgood tablet_id replicas). }
  apply (load_reliable strict_majority good rows) in Hall.
  destruct (load_frame strict_majority rows idx) as [Ht Hr].
  destruct (load_verdict strict_majority rows idx Hok) as [[H _] | [_ Hlost]]; [done |].
  exfalso. apply not_true_iff_false in Hlost. apply Hlost.
  apply quorum_ok_iff. intros tablet_id replicas Hin. rewrite Ht in Hin. rewrite Hr.
  destruct (Hreps tablet_id replicas Hin) as [Hnd Hlen].
  pose proof (filter_all_but (live (load strict_majority rows idx).2) replicas bad Hnd)
    as Hcount.
  assert (Hle : (length replicas
                 <= length (List.filter (live (load strict_majority rows idx).2) replicas)
                    + length bad)%nat).
  { apply Hcount. intros node Hnode Hnot.
    destruct (Hall node) as (ch & Hch & _ & Hlive).
    - split; [done |]. by exists tablet_id, replicas.
    - unfold live. by rewrite Hch, Hlive. }
  apply strict_majority_iff. unfold live_replicas. lia.
Qed.

(** C1: the quorum of a tablet is the strict majority of its [R]
    replicas, ⌊R/2⌋ + 1: a tablet has it exactly when more than half of
    [R] replica channels are live, for [R = 3] when two are.  On an index
    channel that starts with every tablet at quorum, the load ([open], the
    rows, [close]) ends OK or with [QuorumLost]; it ends OK exactly when
    every tablet has its quorum of live replica channels at the end, and
    then every tablet has had it after [open] and after each row, because
    the first report of a failed channel that takes a tablet below the
    quorum ends the load with [QuorumLost].  The load goes through when the
    backends that may fail are fewer than half of [R], one backend for
    [R = 3]; it is lost when fewer replicas of a tablet than the quorum
    accept the open request, and, for [R = 3], when two replica channels of
    a tablet are failed at the end.  In single-threaded mode the sink
    returns OK exactly when every index channel keeps its quorum through
    the sends and the close, and [QuorumLost] otherwise. *)
Theorem IndexChannel_quorum_rule (idx : t) (rows : list (Tuple * Z)) :
  quorum_ok strict_majority idx = true ->
  let R := _parent_num_repicas idx in
  let r := load strict_majority rows idx in
  (forall n : Z, strict_majority R <= n <-> R < 2 * n) /\
  strict_majority 3 = 2 /\
  (forall i : t,
     quorum_ok strict_majority i = true <->
     forall tablet_id replicas,
       _channels_by_tablet i !! tablet_id = Some replicas ->
       strict_majority (_parent_num_repicas i) <= live_replicas i replicas) /\
  (r.1 = OK \/ r.1 = Error QuorumLost) /\
  (r.1 = OK <->
   forall tablet_id replicas,
     _channels_by_tablet idx !! tablet_id = Some replicas ->
     strict_majority R <= live_replicas r.2 replicas) /\
  (r.1 = OK ->
   forall k : nat, quorum_ok strict_majority (after_rows strict_majority rows k idx) = true) /\
  (forall bad : list Z,
     2 * Z.of_nat (length bad) < R ->
     (forall tablet_id replicas,
        _channels_by_tablet idx !! tablet_id = Some replicas ->
        NoDup replicas /\ Z.of_nat (length replicas) = R) ->
     (forall tablet_id replicas node,
        _channels_by_tablet idx !! tablet_id = Some replicas ->
        node ∈ replicas -> node ∉ bad ->
        exists ch, _node_channels idx !! node = Some ch /\
                   NodeChannel.reliable (NodeChannel._stub ch) /\
                   NodeChannel.already_failed ch = false) ->
     r.1 = OK) /\
  (forall tablet_id replicas,
     _channels_by_tablet idx !! tablet_id = Some replicas ->
     Z.of_nat (length (List.filter (accepts_open idx) replicas)) < strict_majority R ->
     r.1 = Error QuorumLost) /\
  (forall tablet_id replicas n1 n2,
     R = 3 ->
     _channels_by_tablet idx !! tablet_id = Some replicas ->
     length replicas = 3%nat ->
     n1 ∈ replicas -> n2 ∈ replicas -> n1 <> n2 ->
     live r.2 n1 = false -> live r.2 n2 = false ->
     r.1 = Error QuorumLost) /\
  (forall (find_tablet : Tuple -> option (Z * list Z))
          (route_buffered : Tuple -> list Z -> OlapTableSink.Routing
                            -> Status * OlapTableSink.Routing)
          (_multi_thread_close : bool -> OlapTableSink.Routing -> OlapTableSink.Routing)
          (s : OlapTableSink.t) (batches : list (list Tuple)),
     OlapTableSink._use_multi_thread s = false ->
     forallb (quorum_ok strict_majority) (OlapTableSink._channels s) = true ->
     let sent := OlapTableSink.send_all strict_majority find_tablet route_buffered
                   batches s in
     let closed := OlapTableSink.close strict_majority _multi_thread_close
                     sent.1 sent.2 in
     (sent.1 = OK <->
      forallb (quorum_ok strict_majority) (OlapTableSink._channels sent.2) = true) /\
     (closed.1.1 = OK \/ closed.1.1 = Error QuorumLost) /\
     (closed.1.1 = OK <->
      sent.1 = OK /\
      forallb (quorum_ok strict_majority) (OlapTableSink._channels closed.1.2) = true)).
Proof.
  intros Hok R r.
  pose proof (load_verdict strict_majority rows idx Hok) as Hv. fold r in Hv.
  destruct (load_frame strict_majority rows idx) as [Ht Hr]. fold r in Ht, Hr.
  assert (Hend : quorum_ok strict_majority r.2 = true <->
                 forall tablet_id replicas,
                   _channels_by_tablet idx !! tablet_id = Some replicas ->
                   strict_majority R <= live_replicas r.2 replicas).
  { rewrite quorum_ok_iff, Ht, Hr. done. }
  split; [intros n; apply strict_majority_iff |].
  split; [reflexivity |].
  split; [intros i; apply quorum_ok_iff |].
  split; [destruct Hv as [[-> _] | [-> _]]; [by left | by right] |].
  split.
  { rewrite <- Hend. destruct Hv as [[-> ->] | [-> ->]]; [done |]. split; discriminate. }
  split; [intros Hst k; by apply load_ok_after_rows |].
  split; [intros bad; by apply load_tolerates |].
  split; [intros tablet_id replicas; by apply load_lost_at_open |].
  split; [| intros *; apply sink_verdict].
  intros tablet_id replicas n1 n2 HR Hin Hlen H1 H2 Hne Hl1 Hl2.
  destruct Hv as [[_ Hq] | [-> _]]; [| done]. exfalso.
  pose proof (proj1 Hend Hq tablet_id replicas Hin) as Hlive.
  pose proof (filter_two_out (live r.2) replicas n1 n2 H1 H2 Hne Hl1 Hl2) as Hcount.
  unfold live_replicas in Hlive. rewrite HR in Hlive.
  change (strict_majority 3) with 2 in Hlive. lia.
Qed.

End QuorumRule.

Lemma IndexChannel_quorum_rule_witness :
  let idx := ThreeReplicas.index_with
               NodeChannel.always_ok (NodeChannel.drops_at 1) NodeChannel.always_ok in
  let r := IndexChannel.load IndexChannel.strict_majority ThreeReplicas.rows idx in
  IndexChannel.quorum_ok IndexChannel.strict_majority idx = true /\
  IndexChannel.live r.2 2 = false /\
  IndexChannel.live_replicas r.2 [1; 2; 3] = 2 /\
  r.1 = OK.
Proof.
  intros idx r.
  assert (Hok : IndexChannel.quorum_ok IndexChannel.strict_majority idx = true)
    by (vm_compute; reflexivity).
  assert (Hmap : IndexChannel._channels_by_tablet idx = {[ 501 := [1; 2; 3] ]})
    by (vm_compute; reflexivity).
  destruct (IndexChannel_quorum_rule idx ThreeReplicas.rows Hok)
    as (_ & _ & _ & _ & _ & _ & Htolerates & _).
  split; [exact Hok |]. split; [vm_compute; reflexivity |].
  split; [vm_compute; reflexivity |].
  apply (Htolerates [2]).
  - vm_compute. reflexivity.
  - intros tablet_id replicas Hin.
    rewrite Hmap in Hin. apply lookup_singleton_Some in Hin as [_ <-].
    split; [| vm_compute; reflexivity].
    apply (bool_decide_unpack _). vm_compute. exact I.
  - intros tablet_id replicas node Hin Hnode Hnot.
    rewrite Hmap in Hin. apply lookup_singleton_Some in Hin as [_ <-].
    assert (Hcases : node = 1 \/ node = 3).
    { apply elem_of_cons in Hnode as [-> | Hnode]; [by left |].
      apply elem_of_cons in Hnode as [-> | Hnode];
        [exfalso; apply Hnot; apply elem_of_cons; by left |].
      apply elem_of_cons in Hnode as [-> | Hnode]; [by right |].
      by apply elem_of_nil in Hnode. }
    destruct Hcases as [-> | ->].
    + destruct (IndexChannel._node_channels idx !! 1) as [ch |] eqn:Hch;
        [| vm_compute in Hch; discriminate].
      exists ch. split; [reflexivity |].
      vm_compute in Hch. injection Hch as <-. by repeat split.
    + destruct (IndexChannel._node_channels idx !! 3) as [ch |] eqn:Hch;
        [| vm_compute in Hch; discriminate].
      exists ch. split; [reflexivity |].
      vm_compute in Hch. injection Hch as <-. by repeat split.
Defined.

(** Under the formula ⌈R/2⌉ + 1 the load of three replicas during which
    one node drops does not go through: the report of the one failed
    channel ends it with [QuorumLost]. *)
Example scenario_one_of_three_drops_ceil :
  let idx := ThreeReplicas.index_with
               NodeChannel.always_ok (NodeChannel.drops_at 1) NodeChannel.always_ok in
  (IndexChannel.load IndexChannel.ceil_half_plus_one ThreeReplicas.rows idx).1
  = Error QuorumLost /\
  (IndexChannel.load IndexChannel.strict_majority ThreeReplicas.rows idx).1 = OK.
Proof. vm_compute. done. Qed.
